(** * hackrf_read: the interrupt-driven streaming session

    A shallow embedding of [hackrf_read.c]: the signal handler, the receive
    callback and [main], over an explicit machine state (the three file-scope
    globals, the standard error stream and the trace of library calls) and an
    environment that scripts what the libraries answer and which asynchronous
    invocations arrive. *)

From Stdlib Require Import ZArith List Bool String Ascii Strings.Byte Lia.
From Stdlib Require Import DecimalString.
Import ListNotations.
Local Open Scope string_scope.
Local Open Scope list_scope.
Local Open Scope Z_scope.

(** ** Constants *)

Module Constants.

(** Settings of the program ([#define]s of hackrf_read.c). *)
Definition DEFAULT_SAMPLE_RATE_HZ : Z := 256000.
Definition RADIO_FREQ : Z := 85500000.
Definition OUTPUT_FILE : string := "output_samples.raw".

(** Values of [enum hackrf_error] used by the program (hackrf.h). *)
Definition HACKRF_SUCCESS : Z := 0.
Definition HACKRF_TRUE : Z := 1.

(** stdlib.h. *)
Definition EXIT_FAILURE : Z := 1.

(** signal.h. *)
Definition SIGINT : Z := 2.
Definition SIGILL : Z := 4.
Definition SIGABRT : Z := 6.
Definition SIGFPE : Z := 8.
Definition SIGSEGV : Z := 11.
Definition SIGTERM : Z := 15.

(** Width of [size_t]; the [int] field [valid_length] is converted to it
    when it is passed to [fwrite]. *)
Definition SIZE_BITS : Z := 64.
Definition to_size_t (v : Z) : Z := v mod 2 ^ SIZE_BITS.

End Constants.

Export Constants.

(** ** Text written by [fprintf] *)

Definition LF : string := String (ascii_of_nat 10) EmptyString.

(** The conversion [%d]. *)
Definition dec (v : Z) : string := NilZero.string_of_int (Z.to_int v).

(** [mentions needle hay]: [needle] occurs in [hay]. *)
Fixpoint mentions (needle hay : string) : bool :=
  String.prefix needle hay
  || match hay with
     | EmptyString => false
     | String _ rest => mentions needle rest
     end.

(** ** Data model *)

(** A stdio stream: the bytes handed to it so far and whether it is still
    open. *)
Record FILE := mkFILE {
  f_data : list byte;
  f_open : bool
}.

(** The fields of [hackrf_transfer] the program reads: the memory [buffer]
    points to, [buffer_length] and [valid_length]. *)
Record hackrf_transfer := mkTransfer {
  buffer : list byte;
  buffer_length : Z;
  valid_length : Z
}.

(** A descriptor as libhackrf hands it out. *)
Definition well_formed (t : hackrf_transfer) : Prop :=
  buffer_length t = Z.of_nat (List.length (buffer t))
  /\ 0 <= valid_length t <= buffer_length t.

Definition valid_bytes (t : hackrf_transfer) : list byte :=
  firstn (Z.to_nat (valid_length t)) (buffer t).

(** The device object behind [hackrf_device*]. *)
Inductive hackrf_device := Device.

(** Library functions the program calls, with their scalar arguments. *)
Inductive libcall :=
| Lfopen (path : string)
| Lhackrf_init
| Lhackrf_open_by_serial
| Lhackrf_set_freq (hz : Z)
| Lhackrf_set_sample_rate (hz : Z)
| Lsignal (signum : Z)
| Lhackrf_start_rx
| Lhackrf_is_streaming
| Lsleep (seconds : Z)
| Lhackrf_stop_rx
| Lhackrf_close
| Lhackrf_exit
| Lfclose.

(** What an observer of the process sees, in order: a library call with the
    value it returned, or an invocation made into the program. *)
Inductive event :=
| Call (c : libcall) (ret : Z)
| Enter_rx_callback
| Enter_handler (signum : Z).

(** The machine: the globals [do_exit], [fp] and [device], the standard
    error stream as the sequence of [fprintf] outputs, and the trace. *)
Record machine := mkMachine {
  do_exit : bool;
  fp : option FILE;
  device : option hackrf_device;
  stderr : list string;
  trace : list event
}.

Definition initial : machine :=
  {| do_exit := false; fp := None; device := None; stderr := []; trace := [] |}.

Definition set_do_exit (b : bool) (m : machine) : machine :=
  {| do_exit := b; fp := fp m; device := device m;
     stderr := stderr m; trace := trace m |}.

Definition set_fp (f : option FILE) (m : machine) : machine :=
  {| do_exit := do_exit m; fp := f; device := device m;
     stderr := stderr m; trace := trace m |}.

Definition set_device (d : option hackrf_device) (m : machine) : machine :=
  {| do_exit := do_exit m; fp := fp m; device := d;
     stderr := stderr m; trace := trace m |}.

Definition fprintf_stderr (s : string) (m : machine) : machine :=
  {| do_exit := do_exit m; fp := fp m; device := device m;
     stderr := stderr m ++ [s]; trace := trace m |}.

Definition emit (ev : event) (m : machine) : machine :=
  {| do_exit := do_exit m; fp := fp m; device := device m;
     stderr := stderr m; trace := trace m ++ [ev] |}.

(** ** stdio *)

(** [fwrite ptr size nmemb stream] on a stream that accepts every byte:
    [size * nmemb] bytes are taken from [ptr] and appended, and the number of
    items written is returned.  Writing to a stream that was closed, or
    taking more bytes than [ptr] holds, has no defined behaviour in C: here
    the closed stream takes nothing and the bytes stop where [ptr] ends. *)
Definition fwrite (ptr : list byte) (size nmemb : Z) (f : FILE) : FILE * Z :=
  if f_open f then
    ({| f_data := f_data f ++ firstn (Z.to_nat (size * nmemb)) ptr;
        f_open := true |},
     if size =? 0 then 0 else nmemb)
  else (f, 0).

Definition fclose (f : FILE) : FILE :=
  {| f_data := f_data f; f_open := false |}.

(** ** The two entry points invoked from outside the main flow *)

(** Break on signals like ctrl+c. *)
Definition sigint_callback_handler (signum : Z) (m : machine) : machine :=
  let m := fprintf_stderr ("Caught signal " ++ dec signum ++ LF)%string m in
  set_do_exit true m.

(** Callback for data receive: the machine afterwards and the returned int. *)
Definition rx_callback (transfer : hackrf_transfer) (m : machine)
  : machine * Z :=
  if do_exit m then (m, 0)
  else
    let m :=
      match fp m with
      | Some f =>
          let '(f', _) :=
            fwrite (buffer transfer) (to_size_t (valid_length transfer)) 1 f in
          set_fp (Some f') m
      | None => m
      end in
    (m, 0).

(** ** The environment *)

(** An invocation made into the program from outside the main flow: the
    installed signal handler, or the receive callback with a filled buffer. *)
Inductive async :=
| Handler (signum : Z)
| Callback (transfer : hackrf_transfer).

(** One evaluation of the loop condition: what [hackrf_is_streaming] answers,
    and what arrives during the [sleep(1)] that follows if the body runs. *)
Record poll := mkPoll {
  streaming : Z;
  arrivals : list async
}.

(** What the libraries answer and what arrives, for one run of the program.
    Asynchronous invocations are taken at four places: after the handlers are
    installed, after streaming has started, during each [sleep(1)], and
    between the end of the loop and [hackrf_stop_rx]. *)
Record Env := mkEnv {
  fopen_errno : option Z;       (* [None]: the stream was opened *)
  r_init : Z;
  r_open : Z;
  r_set_freq : Z;
  r_set_sample_rate : Z;
  pre_start : list Z;           (* signals handled before [hackrf_start_rx] *)
  r_start_rx : Z;
  pre_loop : list async;
  polls : list poll;
  drain : list async;
  r_stop_rx : Z;
  r_close : Z;
  r_exit : Z;
  r_fclose : Z;
  hackrf_error_name : Z -> string
}.

Definition deliver (a : async) (m : machine) : machine :=
  match a with
  | Handler signum =>
      sigint_callback_handler signum (emit (Enter_handler signum) m)
  | Callback transfer =>
      fst (rx_callback transfer (emit Enter_rx_callback m))
  end.

Definition arrive (evs : list async) (m : machine) : machine :=
  fold_left (fun m a => deliver a m) evs m.

(** ** Control flow of [main] *)

(** A statement either falls through with a value, executes [return code],
    or is still inside the polling loop when the script of polls ends. *)
Inductive res (A : Type) :=
| Val (a : A)
| Return (code : Z)
| Pending.
Arguments Val {A} a.
Arguments Return {A} code.
Arguments Pending {A}.

Definition prog (A : Type) : Type := machine -> machine * res A.

Definition ret {A} (a : A) : prog A := fun m => (m, Val a).

Definition bind {A B} (p : prog A) (k : A -> prog B) : prog B :=
  fun m =>
    match p m with
    | (m', Val a) => k a m'
    | (m', Return code) => (m', Return code)
    | (m', Pending) => (m', Pending)
    end.

Notation "x <- p ;; k" := (bind p (fun x => k))
  (at level 61, p at next level, right associativity).
Notation "p ;; k" := (bind p (fun _ => k))
  (at level 61, right associativity).

Definition return_ {A} (code : Z) : prog A := fun m => (m, Return code).
Definition lift (f : machine -> machine) : prog unit :=
  fun m => (f m, Val tt).
Definition read {A} (f : machine -> A) : prog A := fun m => (m, Val (f m)).
Definition call (c : libcall) (r : Z) : prog Z :=
  fun m => (emit (Call c r) m, Val r).
Definition when (b : bool) (p : prog unit) : prog unit :=
  if b then p else ret tt.
Definition fprintf (s : string) : prog unit := lift (fprintf_stderr s).

Definition is_null {A} (p : option A) : bool :=
  match p with None => true | Some _ => false end.

(** [x != y] on ints. *)
Definition neq (x y : Z) : bool := negb (x =? y).

Section Program.

Variable e : Env.

(** The format ["%s failed: %s (%d)\n"] with the error name and code. *)
Definition failed (what : string) (result : Z) : string :=
  (what ++ " failed: " ++ hackrf_error_name e result
        ++ " (" ++ dec result ++ ")" ++ LF)%string.

(** [fopen(path, "w")]: a fresh empty stream, or NULL. *)
Definition fopen (path : string) : prog (option FILE) :=
  match fopen_errno e with
  | None => call (Lfopen path) 1 ;;
            ret (Some {| f_data := []; f_open := true |})
  | Some _ => call (Lfopen path) 0 ;; ret None
  end.

(** [hackrf_open_by_serial(NULL, &device)] stores the handle on success. *)
Definition hackrf_open_by_serial : prog Z :=
  r <- call Lhackrf_open_by_serial (r_open e) ;;
  when (r =? HACKRF_SUCCESS) (lift (set_device (Some Device))) ;;
  ret r.

(** [fclose(fp)]: the stream is closed whatever [fclose] returns; the
    pointer [fp] keeps its value.  The stream keeps the bytes that were
    handed to it; they are the content of the file when [fclose] returned
    0. *)
Definition fclose_fp : prog Z :=
  r <- call Lfclose (r_fclose e) ;;
  lift (fun m => set_fp (option_map fclose (fp m)) m) ;;
  ret r.

(** Loop until break by signal or device stops. *)
Fixpoint liveness_loop (ps : list poll) : prog unit :=
  match ps with
  | [] => fun m => (m, Pending)
  | p :: ps' =>
      s <- call Lhackrf_is_streaming (streaming p) ;;
      x <- read do_exit ;;
      if (s =? HACKRF_TRUE) && Bool.eqb x false then
        call (Lsleep 1) 0 ;;
        lift (arrive (arrivals p)) ;;
        liveness_loop ps'
      else ret tt
  end.

(** [main], with the update of [result] at the stream start left open:
    [accumulate old new] is the value stored into [result] there. *)
Definition main_with (accumulate : Z -> Z -> Z) : prog Z :=
  let result := 0 in
  let freq_hz := RADIO_FREQ in
  (* Open output file *)
  f <- fopen OUTPUT_FILE ;;
  lift (set_fp f) ;;
  f <- read fp ;;
  when (is_null f)
    (fprintf "Error opening output file" ;; return_ EXIT_FAILURE) ;;
  (* Init HackRF *)
  result <- call Lhackrf_init (r_init e) ;;
  when (neq result HACKRF_SUCCESS)
    (fprintf (failed "hackrf_init()" result) ;; return_ EXIT_FAILURE) ;;
  (* Open device *)
  result <- hackrf_open_by_serial ;;
  when (neq result HACKRF_SUCCESS)
    (fprintf (failed "hackrf_open()" result) ;; return_ EXIT_FAILURE) ;;
  (* Set frequency *)
  result <- call (Lhackrf_set_freq freq_hz) (r_set_freq e) ;;
  when (neq result HACKRF_SUCCESS)
    (fprintf (failed "hackrf_set_freq()" result) ;; return_ EXIT_FAILURE) ;;
  (* Set sample rate *)
  result <- call (Lhackrf_set_sample_rate DEFAULT_SAMPLE_RATE_HZ)
                 (r_set_sample_rate e) ;;
  when (neq result HACKRF_SUCCESS)
    (fprintf (failed "hackrf_sample_rate_set()" result) ;;
     return_ EXIT_FAILURE) ;;
  (* Handle signals *)
  call (Lsignal SIGINT) 0 ;;
  call (Lsignal SIGILL) 0 ;;
  call (Lsignal SIGFPE) 0 ;;
  call (Lsignal SIGSEGV) 0 ;;
  call (Lsignal SIGTERM) 0 ;;
  call (Lsignal SIGABRT) 0 ;;
  lift (arrive (map Handler (pre_start e))) ;;
  (* Start receiving *)
  started <- call Lhackrf_start_rx (r_start_rx e) ;;
  let result := accumulate result started in
  when (neq result HACKRF_SUCCESS)
    (fprintf (failed "hackrf_start_rx()" result) ;; return_ EXIT_FAILURE) ;;
  lift (arrive (pre_loop e)) ;;
  (* Loop until break by signal or device stops *)
  fprintf ("Stop with Ctrl-C" ++ LF)%string ;;
  liveness_loop (polls e) ;;
  lift (arrive (drain e)) ;;
  (* Stop HackRF and clean up *)
  d <- read device ;;
  when (negb (is_null d))
    (result <- call Lhackrf_stop_rx (r_stop_rx e) ;;
     when (neq result HACKRF_SUCCESS)
       (fprintf (failed "hackrf_stop_rx()" result)) ;;
     result <- call Lhackrf_close (r_close e) ;;
     when (neq result HACKRF_SUCCESS)
       (fprintf (failed "hackrf_close()" result)) ;;
     call Lhackrf_exit (r_exit e) ;;
     f <- read fp ;;
     when (negb (is_null f)) (fclose_fp ;; ret tt)) ;;
  return_ 0.

(** [result |= hackrf_start_rx(device, rx_callback, NULL)], as written. *)
Definition main : prog Z := main_with Z.lor.

(** The same program with [result = hackrf_start_rx(...)]. *)
Definition main_plain_assignment : prog Z := main_with (fun _ new => new).

(** A run of the process from its initial state. *)
Definition run : machine * res Z := main initial.

End Program.

(** ** Sequences of invocations *)

(** [rx_callbacks ts m]: the library invokes the callback once per
    descriptor of [ts], in order; the statuses are collected. *)
Fixpoint rx_callbacks (ts : list hackrf_transfer) (m : machine)
  : machine * list Z :=
  match ts with
  | [] => (m, [])
  | t :: ts' =>
      let '(m1, r) := rx_callback t m in
      let '(m2, rs) := rx_callbacks ts' m1 in
      (m2, r :: rs)
  end.

(** [deliveries sigs m]: the handler runs once per signal of [sigs]. *)
Definition deliveries (sigs : list Z) (m : machine) : machine :=
  fold_left (fun m signum => sigint_callback_handler signum m) sigs m.

(** The bytes of the sink, none if it was never opened. *)
Definition sink (m : machine) : list byte :=
  match fp m with
  | Some f => f_data f
  | None => []
  end.

(** [int] is 32 bits wide; a descriptor's lengths are ints. *)
Definition INT_MAX : Z := 2 ^ 31 - 1.

Definition in_range (t : hackrf_transfer) : Prop :=
  well_formed t /\ buffer_length t <= INT_MAX.

Definition total_length (ts : list hackrf_transfer) : Z :=
  fold_right (fun t acc => valid_length t + acc) 0 ts.

(** ** Vocabulary of the statements *)

Definition caught (signum : Z) : string :=
  ("Caught signal " ++ dec signum ++ LF)%string.

(** The handler as the single store [do_exit = true] and nothing else. *)
Definition single_store (m : machine) : machine := set_do_exit true m.

(** Whether a handler invocation is among the arrivals. *)
Definition signalled (evs : list async) : bool :=
  existsb (fun a => match a with Handler _ => true | Callback _ => false end)
          evs.

(** The trace entry of an arrival and the line it prints, if any. *)
Definition enter (a : async) : event :=
  match a with
  | Handler signum => Enter_handler signum
  | Callback _ => Enter_rx_callback
  end.

Definition printed (a : async) : list string :=
  match a with
  | Handler signum => [caught signum]
  | Callback _ => []
  end.

(** The four teardown calls. *)
Definition is_teardown (ev : event) : bool :=
  match ev with
  | Call Lhackrf_stop_rx _ | Call Lhackrf_close _
  | Call Lhackrf_exit _ | Call Lfclose _ => true
  | _ => false
  end.

Definition is_rx_callback (ev : event) : bool :=
  match ev with
  | Enter_rx_callback => true
  | _ => false
  end.

(** Number of times the loop body ran: the [sleep] calls of a trace. *)
Definition iterations (tr : list event) : nat :=
  List.length (filter (fun ev => match ev with
                                  | Call (Lsleep _) _ => true
                                  | _ => false
                                  end) tr).

Definition polled (p : poll) : event :=
  Call Lhackrf_is_streaming (streaming p).

(** The startup steps that can fail, in program order. *)
Inductive step :=
| SinkOpen
| SubsystemInit
| DeviceOpen
| FrequencySet
| SampleRateSet
| StreamStart.

(** The first startup step the environment makes fail, if any. *)
Definition first_failure (e : Env) : option step :=
  if negb (is_null (fopen_errno e)) then Some SinkOpen
  else if neq (r_init e) HACKRF_SUCCESS then Some SubsystemInit
  else if neq (r_open e) HACKRF_SUCCESS then Some DeviceOpen
  else if neq (r_set_freq e) HACKRF_SUCCESS then Some FrequencySet
  else if neq (r_set_sample_rate e) HACKRF_SUCCESS then Some SampleRateSet
  else if neq (r_start_rx e) HACKRF_SUCCESS then Some StreamStart
  else None.

(** The error behind the failure of a step: [errno] for the sink, the
    libhackrf status for the others. *)
Definition underlying_error (e : Env) (k : step) : Z :=
  match k with
  | SinkOpen => match fopen_errno e with Some errno => errno | None => 0 end
  | SubsystemInit => r_init e
  | DeviceOpen => r_open e
  | FrequencySet => r_set_freq e
  | SampleRateSet => r_set_sample_rate e
  | StreamStart => r_start_rx e
  end.

(** ** The states the startup goes through *)

Section Startup.

Variable e : Env.

Definition sink_opened : machine :=
  set_fp (Some {| f_data := []; f_open := true |})
         (emit (Call (Lfopen OUTPUT_FILE) 1) initial).

Definition subsystem_ready : machine :=
  emit (Call Lhackrf_init HACKRF_SUCCESS) sink_opened.

Definition device_opened : machine :=
  set_device (Some Device)
    (emit (Call Lhackrf_open_by_serial HACKRF_SUCCESS) subsystem_ready).

Definition tuned : machine :=
  emit (Call (Lhackrf_set_freq RADIO_FREQ) HACKRF_SUCCESS) device_opened.

Definition configured : machine :=
  emit (Call (Lhackrf_set_sample_rate DEFAULT_SAMPLE_RATE_HZ) HACKRF_SUCCESS)
       tuned.

Definition handlers_installed : machine :=
  emit (Call (Lsignal SIGABRT) 0)
    (emit (Call (Lsignal SIGTERM) 0)
      (emit (Call (Lsignal SIGSEGV) 0)
        (emit (Call (Lsignal SIGFPE) 0)
          (emit (Call (Lsignal SIGILL) 0)
            (emit (Call (Lsignal SIGINT) 0) configured))))).

(** After [hackrf_start_rx] returned [r]. *)
Definition start_attempted (r : Z) : machine :=
  emit (Call Lhackrf_start_rx r)
       (arrive (map Handler (pre_start e)) handlers_installed).

(** On entry to the liveness loop. *)
Definition streaming_started : machine :=
  fprintf_stderr ("Stop with Ctrl-C" ++ LF)%string
    (arrive (pre_loop e) (start_attempted HACKRF_SUCCESS)).

(** The line printed when step [k] fails. *)
Definition diagnostic (k : step) : string :=
  match k with
  | SinkOpen => "Error opening output file"
  | SubsystemInit => failed e "hackrf_init()" (r_init e)
  | DeviceOpen => failed e "hackrf_open()" (r_open e)
  | FrequencySet => failed e "hackrf_set_freq()" (r_set_freq e)
  | SampleRateSet =>
      failed e "hackrf_sample_rate_set()" (r_set_sample_rate e)
  | StreamStart => failed e "hackrf_start_rx()" (r_start_rx e)
  end.

(** The state in which [main] returns when step [k] fails. *)
Definition aborted (k : step) : machine :=
  fprintf_stderr (diagnostic k)
    match k with
    | SinkOpen =>
        set_fp None (emit (Call (Lfopen OUTPUT_FILE) 0) initial)
    | SubsystemInit => emit (Call Lhackrf_init (r_init e)) sink_opened
    | DeviceOpen =>
        emit (Call Lhackrf_open_by_serial (r_open e)) subsystem_ready
    | FrequencySet =>
        emit (Call (Lhackrf_set_freq RADIO_FREQ) (r_set_freq e))
             device_opened
    | SampleRateSet =>
        emit (Call (Lhackrf_set_sample_rate DEFAULT_SAMPLE_RATE_HZ)
                   (r_set_sample_rate e)) tuned
    | StreamStart => start_attempted (r_start_rx e)
    end.

(** The cleanup block at the end of [main]. *)
Definition teardown : prog unit :=
  d <- read device ;;
  when (negb (is_null d))
    (result <- call Lhackrf_stop_rx (r_stop_rx e) ;;
     when (neq result HACKRF_SUCCESS)
       (fprintf (failed e "hackrf_stop_rx()" result)) ;;
     result <- call Lhackrf_close (r_close e) ;;
     when (neq result HACKRF_SUCCESS)
       (fprintf (failed e "hackrf_close()" result)) ;;
     call Lhackrf_exit (r_exit e) ;;
     f <- read fp ;;
     when (negb (is_null f)) (fclose_fp e ;; ret tt)).

End Startup.

(** [holds m m']: from [m] to [m'] the device handle is the same, the sink
    pointer is null or not as before, and the trace grew by calls none of
    which is a teardown call. *)
Definition holds (m m' : machine) : Prop :=
  device m' = device m
  /\ is_null (fp m') = is_null (fp m)
  /\ exists tr, trace m' = trace m ++ tr /\ existsb is_teardown tr = false.

(** ** The cleanup block *)

Section Teardown.

Variable e : Env.

(** The line logged for a status, none for the success code. *)
Definition warning (what : string) (result : Z) : list string :=
  if neq result HACKRF_SUCCESS then [failed e what result] else [].

Definition teardown_calls : list event :=
  [Call Lhackrf_stop_rx (r_stop_rx e); Call Lhackrf_close (r_close e);
   Call Lhackrf_exit (r_exit e); Call Lfclose (r_fclose e)].

Definition torn_down (m : machine) : machine :=
  {| do_exit := do_exit m;
     fp := option_map fclose (fp m);
     device := device m;
     stderr := stderr m ++ warning "hackrf_stop_rx()" (r_stop_rx e)
                        ++ warning "hackrf_close()" (r_close e);
     trace := trace m ++ teardown_calls |}.

End Teardown.

(** ** Complete runs *)

Section Runs.

Variable e : Env.

(** The loop of this run, and the state in which the cleanup starts. *)
Definition streamed : machine * res unit :=
  liveness_loop (polls e) (streaming_started e).

Definition before_teardown : machine := arrive (drain e) (fst streamed).

(** [main] has come to a [return]. *)
Definition finished (r : res Z) : bool :=
  match r with
  | Pending => false
  | _ => true
  end.

End Runs.

(** How a diagnostic refers to the step that failed. *)
Definition step_label (k : step) : string :=
  match k with
  | SinkOpen => "opening output file"
  | SubsystemInit => "hackrf_init()"
  | DeviceOpen => "hackrf_open()"
  | FrequencySet => "hackrf_set_freq()"
  | SampleRateSet => "hackrf_sample_rate_set()"
  | StreamStart => "hackrf_start_rx()"
  end.

(** A line names an error when it carries its description and its code. *)
Definition names_error (e : Env) (line : string) (code : Z) : bool :=
  mentions (hackrf_error_name e code) line && mentions (dec code) line.

(** The resources have been given back: the sink is closed (or was never
    opened), the device handle was closed (or was never obtained). *)
Definition sink_released (m : machine) : bool :=
  match fp m with
  | Some f => negb (f_open f)
  | None => true
  end.

Definition device_released (m : machine) : bool :=
  is_null (device m)
  || existsb (fun ev => match ev with
                        | Call Lhackrf_close _ => true
                        | _ => false
                        end) (trace m).

(** The streaming state was reached: [hackrf_start_rx] returned success. *)
Definition reached_streaming (tr : list event) : bool :=
  existsb (fun ev => match ev with
                     | Call Lhackrf_start_rx r => r =? HACKRF_SUCCESS
                     | _ => false
                     end) tr.

(** Signals handled before the failure of step [k] was detected. *)
Definition early_signals (e : Env) (k : step) : list Z :=
  match k with
  | StreamStart => pre_start e
  | _ => []
  end.

(** Shutdown is interrupt-driven: there is a poll to observe the flag, and a
    handler invocation arrives before the last scripted poll. *)
Definition interrupt_driven (e : Env) : bool :=
  negb (is_null (hd_error (polls e)))
  && signalled (map Handler (pre_start e) ++ pre_loop e
                ++ flat_map arrivals (removelast (polls e))).

(** ** Sample environments *)

Definition ramp : hackrf_transfer :=
  {| buffer := [x01; x02; x03; x04]%byte; buffer_length := 4;
     valid_length := 3 |}.

Definition burst : hackrf_transfer :=
  {| buffer := [x0a; x0b]%byte; buffer_length := 2; valid_length := 2 |}.

Definition recording : machine :=
  set_fp (Some {| f_data := [xff]%byte; f_open := true |}) initial.

Definition idle : poll := {| streaming := HACKRF_TRUE; arrivals := [] |}.

(** A table of error descriptions for the sample runs. *)
Definition sample_error_name (code : Z) : string :=
  if code =? 0 then "HACKRF_SUCCESS"
  else if code =? -5 then "HackRF not found"
  else if code =? -1000 then "USB error"
  else "unspecified error".

(** Every call succeeds; SIGINT arrives during the first sleep, between two
    buffers. *)
Definition interrupted_session : Env :=
  {| fopen_errno := None; r_init := 0; r_open := 0; r_set_freq := 0;
     r_set_sample_rate := 0; pre_start := []; r_start_rx := 0;
     pre_loop := [Callback ramp];
     polls := [ {| streaming := HACKRF_TRUE;
                   arrivals := [Callback burst; Handler SIGINT;
                                Callback ramp] |};
                idle ];
     drain := [Callback burst];
     r_stop_rx := 0; r_close := 0; r_exit := 0; r_fclose := 0;
     hackrf_error_name := sample_error_name |}.

Definition with_fopen_errno (errno : option Z) (e : Env) : Env :=
  {| fopen_errno := errno; r_init := r_init e; r_open := r_open e;
     r_set_freq := r_set_freq e; r_set_sample_rate := r_set_sample_rate e;
     pre_start := pre_start e; r_start_rx := r_start_rx e;
     pre_loop := pre_loop e; polls := polls e; drain := drain e;
     r_stop_rx := r_stop_rx e; r_close := r_close e; r_exit := r_exit e;
     r_fclose := r_fclose e; hackrf_error_name := hackrf_error_name e |}.

Definition with_set_freq (r : Z) (e : Env) : Env :=
  {| fopen_errno := fopen_errno e; r_init := r_init e; r_open := r_open e;
     r_set_freq := r; r_set_sample_rate := r_set_sample_rate e;
     pre_start := pre_start e; r_start_rx := r_start_rx e;
     pre_loop := pre_loop e; polls := polls e; drain := drain e;
     r_stop_rx := r_stop_rx e; r_close := r_close e; r_exit := r_exit e;
     r_fclose := r_fclose e; hackrf_error_name := hackrf_error_name e |}.

Definition with_open (r : Z) (e : Env) : Env :=
  {| fopen_errno := fopen_errno e; r_init := r_init e; r_open := r;
     r_set_freq := r_set_freq e; r_set_sample_rate := r_set_sample_rate e;
     pre_start := pre_start e; r_start_rx := r_start_rx e;
     pre_loop := pre_loop e; polls := polls e; drain := drain e;
     r_stop_rx := r_stop_rx e; r_close := r_close e; r_exit := r_exit e;
     r_fclose := r_fclose e; hackrf_error_name := hackrf_error_name e |}.

(** The same run with other answers from the four teardown calls. *)
Definition with_teardown (stop close exit fclose_ret : Z) (e : Env) : Env :=
  {| fopen_errno := fopen_errno e; r_init := r_init e; r_open := r_open e;
     r_set_freq := r_set_freq e; r_set_sample_rate := r_set_sample_rate e;
     pre_start := pre_start e; r_start_rx := r_start_rx e;
     pre_loop := pre_loop e; polls := polls e; drain := drain e;
     r_stop_rx := stop; r_close := close; r_exit := exit;
     r_fclose := fclose_ret; hackrf_error_name := hackrf_error_name e |}.

(** errno 13 (EACCES) and 2 (ENOENT) from [fopen]. *)
Definition sink_refused (errno : Z) : Env :=
  with_fopen_errno (Some errno) interrupted_session.

Definition frequency_rejected : Env := with_set_freq (-1000) interrupted_session.

Definition no_device : Env := with_open (-5) interrupted_session.

(** Subsystem shutdown and sink close both report failure. *)
Definition silent_failures : Env :=
  with_teardown 0 0 (-1000) (-1) interrupted_session.

Definition stop_fails : Env :=
  with_teardown (-1000) 0 0 0 interrupted_session.

(** ** Vocabulary of the further properties *)

(** The descriptors of the callbacks that arrive before the first handler
    invocation. *)
Fixpoint before_signal (evs : list async) : list hackrf_transfer :=
  match evs with
  | [] => []
  | Handler _ :: _ => []
  | Callback t :: rest => t :: before_signal rest
  end.

(** The sink can be written to or is unset: [fp] does not point to a stream
    that was closed. *)
Definition sink_usable (m : machine) : Prop :=
  forall f, fp m = Some f -> f_open f = true.

(** The sink is a stream that is still open. *)
Definition sink_open (m : machine) : Prop :=
  exists f, fp m = Some f /\ f_open f = true.

(** The handler was entered at some point of a trace. *)
Definition handler_ran (tr : list event) : bool :=
  existsb (fun ev => match ev with
                     | Enter_handler _ => true
                     | _ => false
                     end) tr.

(** The library calls of a trace, without the invocations made into the
    program. *)
Definition calls (tr : list event) : list event :=
  filter (fun ev => match ev with
                    | Call _ _ => true
                    | _ => false
                    end) tr.

(** A poll at which the device still streams and during whose sleep no
    signal is handled. *)
Definition uneventful (p : poll) : bool :=
  (streaming p =? HACKRF_TRUE) && negb (signalled (arrivals p)).

(** A poll at which the device reports that it no longer streams. *)
Definition stopped (p : poll) : bool := negb (streaming p =? HACKRF_TRUE).

(** The calls of a startup in which every step succeeds. *)
Definition startup_calls : list event :=
  [Call (Lfopen OUTPUT_FILE) 1;
   Call Lhackrf_init HACKRF_SUCCESS;
   Call Lhackrf_open_by_serial HACKRF_SUCCESS;
   Call (Lhackrf_set_freq RADIO_FREQ) HACKRF_SUCCESS;
   Call (Lhackrf_set_sample_rate DEFAULT_SAMPLE_RATE_HZ) HACKRF_SUCCESS;
   Call (Lsignal SIGINT) 0; Call (Lsignal SIGILL) 0; Call (Lsignal SIGFPE) 0;
   Call (Lsignal SIGSEGV) 0; Call (Lsignal SIGTERM) 0;
   Call (Lsignal SIGABRT) 0;
   Call Lhackrf_start_rx HACKRF_SUCCESS].

(** One turn of the loop body: the status query answered [HACKRF_TRUE] and
    the sleep of one second. *)
Definition turn : list event :=
  [Call Lhackrf_is_streaming HACKRF_TRUE; Call (Lsleep 1) 0].

(** A descriptor with no valid bytes, and a machine with the sink unset. *)
Definition empty_transfer : hackrf_transfer :=
  {| buffer := [x01; x02]%byte; buffer_length := 2; valid_length := 0 |}.

(** The device stops streaming by itself at the second poll. *)
Definition device_stops : Env :=
  {| fopen_errno := None; r_init := 0; r_open := 0; r_set_freq := 0;
     r_set_sample_rate := 0; pre_start := []; r_start_rx := 0;
     pre_loop := [];
     polls := [ {| streaming := HACKRF_TRUE; arrivals := [Callback ramp] |};
                {| streaming := 0; arrivals := [] |} ];
     drain := [];
     r_stop_rx := 0; r_close := 0; r_exit := 0; r_fclose := 0;
     hackrf_error_name := sample_error_name |}.

(** SIGTERM is handled before streaming starts. *)
Definition early_signal : Env :=
  {| fopen_errno := None; r_init := 0; r_open := 0; r_set_freq := 0;
     r_set_sample_rate := 0; pre_start := [SIGTERM]; r_start_rx := 0;
     pre_loop := [Callback ramp];
     polls := [idle];
     drain := [Callback burst];
     r_stop_rx := 0; r_close := 0; r_exit := 0; r_fclose := 0;
     hackrf_error_name := sample_error_name |}.

(** Two machines agree on the exit flag and on the sink. *)
Definition same_globals (m1 m2 : machine) : Prop :=
  do_exit m1 = do_exit m2 /\ fp m1 = fp m2.

(** What arrives in a run whose loop body runs [turns] times: the signals
    handled before the start, the arrivals before the loop, those of the
    sleeps that took place, and those before [hackrf_stop_rx]. *)
Definition delivered (e : Env) (turns : nat) : list async :=
  map Handler (pre_start e) ++ pre_loop e
  ++ flat_map arrivals (firstn turns (polls e)) ++ drain e.

(** * Proof tools *)

(** One step of symbolic execution of a [prog]. *)
Ltac run_prog :=
  cbv beta iota zeta delta
      [bind call lift read when fprintf ret return_ neq is_null negb fst snd];
  cbn [fp device do_exit stderr trace
       set_fp set_device set_do_exit emit fprintf_stderr].

(** Case split on the check [result != HACKRF_SUCCESS] of a status. *)
Ltac split_on_status r :=
  let E := fresh "E" in
  destruct (r =? HACKRF_SUCCESS) eqn:E;
  run_prog; rewrite ?E; run_prog;
  [apply Z.eqb_eq in E; rewrite ?E | apply Z.eqb_neq in E].

(** * The receive callback *)

Section Callback.

Lemma to_size_t_small v : 0 <= v <= INT_MAX -> to_size_t v = v.
Proof.
  intros H. unfold to_size_t, SIZE_BITS. apply Z.mod_small.
  unfold INT_MAX in H. lia.
Qed.

Lemma valid_bytes_length t :
  well_formed t -> Z.of_nat (List.length (valid_bytes t)) = valid_length t.
Proof.
  intros [Hlen [Hlo Hhi]]. unfold valid_bytes.
  rewrite length_firstn. lia.
Qed.

(** One invocation on an open sink, flag clear: the valid bytes are
    appended and nothing else changes. *)
Lemma rx_callback_writes t m f :
  in_range t -> do_exit m = false -> fp m = Some f -> f_open f = true ->
  rx_callback t m =
    (set_fp (Some {| f_data := f_data f ++ valid_bytes t; f_open := true |}) m,
     HACKRF_SUCCESS).
Proof.
  intros [Hwf Hmax] Hflag Hfp Hopen.
  unfold rx_callback. rewrite Hflag, Hfp. unfold fwrite. rewrite Hopen.
  rewrite to_size_t_small by (destruct Hwf as [_ ?]; lia).
  rewrite Z.mul_1_r. reflexivity.
Qed.

Lemma total_length_concat ts :
  Forall in_range ts ->
  Z.of_nat (List.length (List.concat (map valid_bytes ts))) = total_length ts.
Proof.
  induction 1 as [|t ts [Hwf _] _ IH]; simpl; [reflexivity|].
  rewrite length_app, Nat2Z.inj_add, IH, (valid_bytes_length t Hwf).
  reflexivity.
Qed.

End Callback.

(** C1. N invocations of the receive callback with the exit flag clear and
  the sink open: every invocation returns the success status, and the sink
  then holds what it held before followed by the valid bytes of the N
  buffers in invocation order, which is the sum of the valid lengths more
  bytes; the flag is still clear. *)
Theorem rx_callbacks_concatenate :
forall (ts : list hackrf_transfer) (m : machine) (f : FILE),
  Forall in_range ts ->
  do_exit m = false ->
  fp m = Some f ->
  f_open f = true ->
  let m' := fst (rx_callbacks ts m) in
  let statuses := snd (rx_callbacks ts m) in
  sink m' = sink m ++ List.concat (map valid_bytes ts)
  /\ Z.of_nat (List.length (sink m')) =
     Z.of_nat (List.length (sink m)) + total_length ts
  /\ statuses = repeat HACKRF_SUCCESS (List.length ts)
  /\ do_exit m' = false
  /\ (exists f', fp m' = Some f' /\ f_open f' = true).
Proof.
intros ts. induction ts as [|t ts IH]; intros m f Hts Hflag Hfp Hopen.
- simpl. rewrite app_nil_r. repeat split; try lia; try assumption.
  exists f. split; assumption.
- inversion Hts as [|? ? Ht Hts']; subst.
  cbn zeta. simpl rx_callbacks.
  rewrite (rx_callback_writes t m f Ht Hflag Hfp Hopen).
  set (m1 := set_fp _ m).
  specialize (IH m1 _ Hts' Hflag eq_refl eq_refl).
  cbn zeta in IH. destruct (rx_callbacks ts m1) as [m2 rs].
  simpl in IH |- *. destruct IH as (Hsink & Hlen & Hrs & Hflag' & Hopen').
  assert (Hs1 : sink m1 = sink m ++ valid_bytes t).
  { unfold sink, m1. simpl. rewrite Hfp. reflexivity. }
  rewrite Hs1 in Hsink, Hlen.
  repeat split.
  + rewrite Hsink, app_assoc. reflexivity.
  + rewrite Hlen, length_app, Nat2Z.inj_add.
    destruct Ht as [Hwf _]. rewrite (valid_bytes_length t Hwf). lia.
  + rewrite Hrs. reflexivity.
  + exact Hflag'.
  + exact Hopen'.
Qed.

Lemma ramp_in_range : in_range ramp.
Proof. unfold in_range, well_formed, INT_MAX; simpl; lia. Qed.

Lemma burst_in_range : in_range burst.
Proof. unfold in_range, well_formed, INT_MAX; simpl; lia. Qed.

Lemma rx_callbacks_concatenate_witness :
  sink (fst (rx_callbacks [ramp; burst] recording))
  = [xff; x01; x02; x03; x0a; x0b]%byte.
Proof.
  destruct (rx_callbacks_concatenate [ramp; burst] recording
              {| f_data := [xff]%byte; f_open := true |}) as [H _].
  - apply Forall_cons; [apply ramp_in_range|].
    apply Forall_cons; [apply burst_in_range | apply Forall_nil].
  - reflexivity.
  - reflexivity.
  - reflexivity.
  - exact H.
Defined.

(** C2. While the exit flag is set, every invocation of the receive callback
    returns the success status and leaves the machine, and so the sink, as it
    was, however many invocations follow. *)
Theorem rx_callbacks_after_exit :
  forall (ts : list hackrf_transfer) (m : machine),
    do_exit m = true ->
    rx_callbacks ts m = (m, repeat HACKRF_SUCCESS (List.length ts))
    /\ sink (fst (rx_callbacks ts m)) = sink m.
Proof.
  intros ts m Hflag.
  assert (H : rx_callbacks ts m = (m, repeat HACKRF_SUCCESS (List.length ts))).
  { induction ts as [|t ts IH]; [reflexivity|].
    simpl. unfold rx_callback at 1. rewrite Hflag, IH. reflexivity. }
  rewrite H. split; reflexivity.
Qed.

Lemma rx_callbacks_after_exit_witness :
  rx_callbacks [ramp; burst] (set_do_exit true recording)
  = (set_do_exit true recording, [0; 0]).
Proof.
  apply (rx_callbacks_after_exit [ramp; burst] (set_do_exit true recording)).
  reflexivity.
Defined.

(** C5. The receive callback returns the success status on every invocation,
    whatever the descriptor and the state of the globals: it has no path that
    returns a failure status, so it never asks the library to stop streaming,
    before the resources are released or after. *)
Theorem rx_callback_always_succeeds :
  forall (t : hackrf_transfer) (m : machine),
    snd (rx_callback t m) = HACKRF_SUCCESS.
Proof.
  intros t m. unfold rx_callback.
  destruct (do_exit m); reflexivity.
Qed.

(** * The signal handler *)

(** C4, as stated, fails: handling SIGINT from the initial state is not the
    single store to the flag; the handler has also written a line to the
    standard error stream. *)
Lemma handler_not_single_store :
  sigint_callback_handler SIGINT initial <> single_store initial
  /\ stderr (sigint_callback_handler SIGINT initial) = [caught 2]
  /\ stderr (single_store initial) = [].
Proof.
  split; [|split; reflexivity].
  intros H. apply (f_equal stderr) in H. discriminate H.
Qed.

(** C4, amended. For every signal the handler sets the exit flag and leaves
    the other globals ([fp], [device]), the sink and the trace of library
    calls as they were; besides the store it performs one output action, the
    line ["Caught signal <signum>"] appended to the standard error stream.
    The store and the print act on different parts of the state: the state
    reached is the one reached by the two in either order. *)
Theorem handler_effect :
  forall (signum : Z) (m : machine),
    let m' := sigint_callback_handler signum m in
    do_exit m' = true
    /\ fp m' = fp m
    /\ device m' = device m
    /\ trace m' = trace m
    /\ stderr m' = stderr m ++ [caught signum]
    /\ m' = fprintf_stderr (caught signum) (single_store m)
    /\ m' = single_store (fprintf_stderr (caught signum) m).
Proof.
  intros signum m. cbv zeta.
  unfold sigint_callback_handler, single_store, caught. simpl.
  repeat split.
Qed.

Lemma do_exit_deliveries sigs :
  forall m, do_exit (deliveries sigs m) = do_exit m || negb (is_null (hd_error sigs)).
Proof.
  unfold deliveries.
  induction sigs as [|s sigs IH]; intros m; simpl.
  - now rewrite orb_false_r.
  - rewrite IH. simpl. now rewrite orb_true_r.
Qed.

Lemma do_exit_deliver a m :
  do_exit (deliver a m) =
  do_exit m || match a with Handler _ => true | Callback _ => false end.
Proof.
  destruct a as [s|t]; simpl.
  - now rewrite orb_true_r.
  - unfold rx_callback. simpl. rewrite orb_false_r.
    destruct (do_exit m) eqn:E; simpl; [exact E|].
    destruct (fp m) as [f|]; simpl; [|exact E].
    destruct (fwrite _ _ _ f). simpl. exact E.
Qed.

Lemma do_exit_arrive evs :
  forall m, do_exit (arrive evs m) = do_exit m || signalled evs.
Proof.
  unfold arrive.
  induction evs as [|a evs IH]; intros m; simpl.
  - now rewrite orb_false_r.
  - rewrite IH, do_exit_deliver, orb_assoc. reflexivity.
Qed.

(** C9. Delivering a terminating signal sets the exit flag; one or more
    deliveries leave the flag in the state a single delivery leaves it in,
    and no later handler or callback invocation clears it again. *)
Theorem signal_delivery_idempotent :
  forall (signum : Z) (more : list Z) (m : machine),
    do_exit (sigint_callback_handler signum m) = true
    /\ do_exit (deliveries (signum :: more) m)
       = do_exit (sigint_callback_handler signum m)
    /\ (forall later : list async,
          do_exit (arrive later (deliveries (signum :: more) m)) = true).
Proof.
  intros signum more m.
  assert (H : do_exit (deliveries (signum :: more) m) = true).
  { rewrite do_exit_deliveries. simpl. apply orb_true_r. }
  repeat split.
  - exact H.
  - intros later. rewrite do_exit_arrive, H. reflexivity.
Qed.

(** * Asynchronous arrivals *)

Lemma rx_callback_frame t m :
let m' := fst (rx_callback t m) in
do_exit m' = do_exit m /\ device m' = device m /\ stderr m' = stderr m
/\ trace m' = trace m /\ is_null (fp m') = is_null (fp m).
Proof.
cbv zeta. unfold rx_callback.
destruct (do_exit m) eqn:E; simpl; [now rewrite E|].
destruct (fp m) as [f|] eqn:F; simpl; [|now rewrite E, F].
destruct (fwrite _ _ _ f). simpl. now rewrite E.
Qed.

Section Arrivals.

Variable evs : list async.

Lemma trace_arrive : forall m, trace (arrive evs m) = trace m ++ map enter evs.
Proof.
  unfold arrive. induction evs as [|a l IH]; intros m; simpl.
  - now rewrite app_nil_r.
  - rewrite IH. change (enter a :: map enter l) with ([enter a] ++ map enter l).
    rewrite app_assoc. f_equal.
    destruct a as [s|t]; simpl; [reflexivity|].
    now destruct (rx_callback_frame t (emit Enter_rx_callback m))
      as (_ & _ & _ & -> & _).
Qed.

Lemma stderr_arrive :
  forall m, stderr (arrive evs m) = stderr m ++ flat_map printed evs.
Proof.
  unfold arrive. induction evs as [|a l IH]; intros m; simpl.
  - now rewrite app_nil_r.
  - rewrite IH, app_assoc. f_equal.
    destruct a as [s|t]; simpl; [reflexivity|].
    destruct (rx_callback_frame t (emit Enter_rx_callback m))
      as (_ & _ & -> & _). simpl. now rewrite app_nil_r.
Qed.

Lemma device_arrive : forall m, device (arrive evs m) = device m.
Proof.
  unfold arrive. induction evs as [|a l IH]; intros m; simpl; [reflexivity|].
  rewrite IH. destruct a as [s|t]; simpl; [reflexivity|].
  now destruct (rx_callback_frame t (emit Enter_rx_callback m))
    as (_ & -> & _).
Qed.

Lemma fp_null_arrive :
  forall m, is_null (fp (arrive evs m)) = is_null (fp m).
Proof.
  unfold arrive. induction evs as [|a l IH]; intros m; simpl; [reflexivity|].
  rewrite IH. destruct a as [s|t]; simpl; [reflexivity|].
  now destruct (rx_callback_frame t (emit Enter_rx_callback m))
    as (_ & _ & _ & _ & ->).
Qed.

End Arrivals.

Lemma fp_arrive_handlers sigs :
forall m, fp (arrive (map Handler sigs) m) = fp m.
Proof.
unfold arrive. induction sigs as [|s l IH]; intros m; simpl; [reflexivity|].
now rewrite IH.
Qed.

Lemma no_teardown_enter evs : existsb is_teardown (map enter evs) = false.
Proof. induction evs as [|[s|t] l IH]; simpl; auto. Qed.

(** * The liveness loop *)

Lemma liveness_loop_unfold p ps m :
  liveness_loop (p :: ps) m =
  if (streaming p =? HACKRF_TRUE) && negb (do_exit m)
  then liveness_loop ps
         (arrive (arrivals p) (emit (Call (Lsleep 1) 0) (emit (polled p) m)))
  else (emit (polled p) m, Val tt).
Proof.
  simpl. unfold bind, call, read, lift, ret. simpl.
  destruct (streaming p =? HACKRF_TRUE); destruct (do_exit m); reflexivity.
Qed.

Lemma iterations_app tr tr' :
  iterations (tr ++ tr') = (iterations tr + iterations tr')%nat.
Proof. unfold iterations. now rewrite filter_app, length_app. Qed.

(** C8. At an evaluation of the loop condition with the exit flag set or
    with [hackrf_is_streaming] not answering [HACKRF_TRUE], the loop ends
    there: the status query is the only further call and the body does not
    run again.  Conversely the body runs at that evaluation, and one more
    [sleep] is made, only if the device reported streaming and the flag was
    clear. *)
Theorem liveness_loop_guard :
  forall (p : poll) (ps : list poll) (m : machine),
    (do_exit m = true \/ streaming p <> HACKRF_TRUE ->
     liveness_loop (p :: ps) m = (emit (polled p) m, Val tt)
     /\ iterations (trace (fst (liveness_loop (p :: ps) m)))
        = iterations (trace m))
    /\ (iterations (trace (fst (liveness_loop (p :: ps) m)))
        <> iterations (trace m) ->
        streaming p = HACKRF_TRUE /\ do_exit m = false).
Proof.
  intros p ps m.
  assert (Hexit : (streaming p =? HACKRF_TRUE) && negb (do_exit m) = false ->
                  liveness_loop (p :: ps) m = (emit (polled p) m, Val tt)
                  /\ iterations (trace (fst (liveness_loop (p :: ps) m)))
                     = iterations (trace m)).
  { intros G. rewrite liveness_loop_unfold, G. split; [reflexivity|].
    simpl. rewrite iterations_app.
    change (iterations [polled p]) with 0%nat. lia. }
  split.
  - intros [Hflag | Hstop]; apply Hexit.
    + rewrite Hflag. apply andb_false_r.
    + apply Z.eqb_neq in Hstop. now rewrite Hstop.
  - intros Hmore.
    destruct ((streaming p =? HACKRF_TRUE) && negb (do_exit m)) eqn:G.
    + apply andb_prop in G as [Gs Gf]. apply Z.eqb_eq in Gs.
      apply negb_true_iff in Gf. now split.
    + exfalso. apply Hmore. now apply Hexit.
Qed.

Lemma liveness_loop_guard_witness :
  liveness_loop [idle; idle] (set_do_exit true recording)
  = (emit (polled idle) (set_do_exit true recording), Val tt).
Proof.
  apply (proj1 (liveness_loop_guard idle [idle] (set_do_exit true recording))).
  left. reflexivity.
Defined.

(** * The main flow *)

(** The stream-start statement is only ever reached with [result] holding
    the success code: two updates that agree there give the same program. *)
Lemma main_with_agree e (f g : Z -> Z -> Z) m :
  (forall new, f HACKRF_SUCCESS new = g HACKRF_SUCCESS new) ->
  main_with e f m = main_with e g m.
Proof.
  intros Hfg. unfold main_with, fopen, hackrf_open_by_serial, neq.
  destruct (fopen_errno e) as [errno|]; run_prog; [reflexivity|].
  split_on_status (r_init e); [|reflexivity].
  split_on_status (r_open e); [|reflexivity].
  split_on_status (r_set_freq e); [|reflexivity].
  split_on_status (r_set_sample_rate e); [|reflexivity].
  rewrite Hfg. reflexivity.
Qed.

(** C10. [result |= hackrf_start_rx(...)] behaves as the plain assignment
    [result = hackrf_start_rx(...)]: from every machine state the two
    programs end in the same state with the same outcome, and whatever the
    update does with an old value other than the success code is never
    observed, because the statement is reached only with [result] equal to
    [HACKRF_SUCCESS], which is 0. *)
Theorem start_rx_accumulation_is_assignment :
  forall (e : Env) (m : machine),
    main e m = main_plain_assignment e m
    /\ HACKRF_SUCCESS = 0
    /\ (forall update : Z -> Z -> Z,
          main_with e update m
          = main_with e (fun _ new => update HACKRF_SUCCESS new) m).
Proof.
  intros e m. split; [|split].
  - unfold main, main_plain_assignment.
    apply main_with_agree. intros new. reflexivity.
  - reflexivity.
  - intros update. apply main_with_agree. reflexivity.
Qed.

Section StartupRuns.

Variable e : Env.

(** A failing step makes [main] return [EXIT_FAILURE] from the state
    [aborted]. *)
Lemma run_aborts k :
  first_failure e = Some k -> run e = (aborted e k, Return EXIT_FAILURE).
Proof.
  unfold first_failure, run, main, main_with, fopen, hackrf_open_by_serial,
    neq.
  destruct (fopen_errno e) as [errno|]; run_prog.
  { intros [= <-]. reflexivity. }
  split_on_status (r_init e); [|intros [= <-]; reflexivity].
  split_on_status (r_open e); [|intros [= <-]; reflexivity].
  split_on_status (r_set_freq e); [|intros [= <-]; reflexivity].
  split_on_status (r_set_sample_rate e); [|intros [= <-]; reflexivity].
  change (Z.lor HACKRF_SUCCESS (r_start_rx e)) with (r_start_rx e).
  split_on_status (r_start_rx e); [discriminate|intros [= <-]; reflexivity].
Qed.

(** With every startup step successful [main] enters the loop from
    [streaming_started] and continues with the cleanup block. *)
Lemma run_streams :
  first_failure e = None ->
  run e = (liveness_loop (polls e) ;;
           lift (arrive (drain e)) ;;
           teardown e ;;
           return_ 0) (streaming_started e).
Proof.
  unfold first_failure, run, main, main_with, fopen, hackrf_open_by_serial,
    neq, teardown.
  destruct (fopen_errno e) as [errno|]; run_prog; [discriminate|].
  split_on_status (r_init e); [|discriminate].
  split_on_status (r_open e); [|discriminate].
  split_on_status (r_set_freq e); [|discriminate].
  split_on_status (r_set_sample_rate e); [|discriminate].
  change (Z.lor HACKRF_SUCCESS (r_start_rx e)) with (r_start_rx e).
  split_on_status (r_start_rx e); [|discriminate].
  intros _. reflexivity.
Qed.

End StartupRuns.

(** ** What streaming leaves in place *)

Lemma holds_refl m : holds m m.
Proof.
  repeat split. exists []. now rewrite app_nil_r.
Qed.

Lemma holds_trans m1 m2 m3 : holds m1 m2 -> holds m2 m3 -> holds m1 m3.
Proof.
  intros (D1 & F1 & tr1 & T1 & N1) (D2 & F2 & tr2 & T2 & N2).
  repeat split; [congruence | congruence |].
  exists (tr1 ++ tr2). split.
  - now rewrite T2, T1, app_assoc.
  - now rewrite existsb_app, N1, N2.
Qed.

Lemma holds_emit ev m : is_teardown ev = false -> holds m (emit ev m).
Proof.
  intros H. repeat split. exists [ev]. simpl. now rewrite H.
Qed.

Lemma holds_fprintf s m : holds m (fprintf_stderr s m).
Proof.
  repeat split. exists []. simpl. now rewrite app_nil_r.
Qed.

Lemma holds_arrive evs m : holds m (arrive evs m).
Proof.
  split; [apply device_arrive|]. split; [apply fp_null_arrive|].
  exists (map enter evs). split; [apply trace_arrive|apply no_teardown_enter].
Qed.

(** The loop never executes [return]; it ends or the script runs out, and
    it leaves the resources in place. *)
Lemma liveness_loop_outcome ps :
  forall m, exists m',
    (liveness_loop ps m = (m', Val tt) \/ liveness_loop ps m = (m', Pending))
    /\ holds m m'.
Proof.
  induction ps as [|p ps IH]; intros m.
  - exists m. split; [now right | apply holds_refl].
  - rewrite liveness_loop_unfold.
    destruct ((streaming p =? HACKRF_TRUE) && negb (do_exit m)).
    + destruct (IH (arrive (arrivals p)
                      (emit (Call (Lsleep 1) 0) (emit (polled p) m))))
        as (m' & Hres & Hholds).
      exists m'. split; [exact Hres|].
      eapply holds_trans; [|exact Hholds].
      apply (holds_trans _ (emit (polled p) m));
        [apply holds_emit; reflexivity|].
      apply (holds_trans _ (emit (Call (Lsleep 1) 0) (emit (polled p) m)));
        [apply holds_emit; reflexivity | apply holds_arrive].
    + exists (emit (polled p) m). split; [now left|].
      apply holds_emit. reflexivity.
Qed.

(** Once the flag is set, or is going to be set by a handler that arrives
    before the last scripted poll, the loop ends. *)
Lemma liveness_loop_terminates ps :
  forall m,
    ps <> [] ->
    do_exit m || signalled (flat_map arrivals (removelast ps)) = true ->
    exists m', liveness_loop ps m = (m', Val tt).
Proof.
  induction ps as [|p ps IH]; intros m Hne Hsig; [congruence|].
  rewrite liveness_loop_unfold.
  destruct ((streaming p =? HACKRF_TRUE) && negb (do_exit m)) eqn:G;
    [|eexists; reflexivity].
  apply andb_prop in G as [_ Gf]. apply negb_true_iff in Gf.
  rewrite Gf in Hsig. simpl orb in Hsig.
  destruct ps as [|q ps]; [discriminate Hsig|].
  apply IH; [discriminate|].
  rewrite do_exit_arrive. simpl do_exit. rewrite Gf. simpl orb.
  change (removelast (p :: q :: ps)) with (p :: removelast (q :: ps)) in Hsig.
  simpl flat_map in Hsig. unfold signalled in Hsig |- *.
  now rewrite existsb_app in Hsig.
Qed.

Section TeardownRuns.

Variable e : Env.

Lemma teardown_runs m :
  is_null (device m) = false -> is_null (fp m) = false ->
  teardown e m = (torn_down e m, Val tt).
Proof.
  intros Hd Hf. unfold teardown, fclose_fp, torn_down, warning, neq.
  destruct m as [x f d err tr]. simpl in Hd, Hf.
  destruct d as [d|]; [clear Hd|discriminate].
  destruct f as [f|]; [clear Hf|discriminate].
  run_prog.
  destruct (r_stop_rx e =? HACKRF_SUCCESS); run_prog;
    destruct (r_close e =? HACKRF_SUCCESS); run_prog;
    unfold teardown_calls, set_fp, emit, fprintf_stderr; cbn;
    rewrite <- ?app_assoc; cbn; rewrite ?app_nil_r; reflexivity.
Qed.

End TeardownRuns.

Section CompleteRuns.

Variable e : Env.

Lemma bind_val {A B} (p : prog A) (k : A -> prog B) m m' a :
  p m = (m', Val a) -> bind p k m = k a m'.
Proof. intros H. unfold bind. now rewrite H. Qed.

Lemma bind_pending {A B} (p : prog A) (k : A -> prog B) m m' :
  p m = (m', Pending) -> bind p k m = (m', Pending).
Proof. intros H. unfold bind. now rewrite H. Qed.

Lemma started_holds : holds device_opened (streaming_started e).
Proof.
  unfold streaming_started, start_attempted, handlers_installed,
    configured, tuned.
  repeat first
    [ apply holds_refl
    | eapply holds_trans; [|apply holds_fprintf]
    | eapply holds_trans; [|apply holds_arrive]
    | eapply holds_trans; [|apply holds_emit; reflexivity] ].
Qed.

Lemma before_teardown_holds : holds device_opened (before_teardown e).
Proof.
  unfold before_teardown, streamed.
  destruct (liveness_loop_outcome (polls e) (streaming_started e))
    as (m' & Hres & Hholds).
  eapply holds_trans; [|apply holds_arrive].
  eapply holds_trans; [apply started_holds|].
  now destruct Hres as [-> | ->].
Qed.

(** A run in which startup succeeds: the loop ends and the cleanup block
    runs in full, or the script of polls is exhausted first. *)
Lemma run_outcome :
  first_failure e = None ->
  (snd (streamed e) = Val tt
   /\ run e = (torn_down e (before_teardown e), Return 0))
  \/ (snd (streamed e) = Pending /\ run e = (fst (streamed e), Pending)).
Proof.
  intros Hok. rewrite (run_streams e Hok).
  pose proof before_teardown_holds as (Hd & Hf & _).
  unfold before_teardown, streamed in *.
  destruct (liveness_loop_outcome (polls e) (streaming_started e))
    as (m' & [Hres | Hres] & _); rewrite Hres in *; simpl fst in *.
  - left. split; [reflexivity|].
    rewrite (bind_val _ _ _ _ _ Hres).
    rewrite (bind_val _ _ _ (arrive (drain e) m') tt eq_refl).
    rewrite (bind_val _ _ _ _ _
               (teardown_runs e (arrive (drain e) m')
                  (f_equal is_null Hd) Hf)).
    reflexivity.
  - right. split; [reflexivity|].
    now rewrite (bind_pending _ _ _ _ Hres).
Qed.

Lemma do_exit_streaming_started :
  do_exit (streaming_started e)
  = signalled (map Handler (pre_start e) ++ pre_loop e).
Proof.
  unfold streaming_started, start_attempted. simpl do_exit.
  rewrite do_exit_arrive. simpl do_exit. rewrite do_exit_arrive.
  unfold signalled. now rewrite existsb_app.
Qed.

End CompleteRuns.

(** ** What a diagnostic mentions *)

Lemma prefix_append s t : String.prefix s (s ++ t)%string = true.
Proof.
  induction s as [|c s IH]; simpl; [now destruct t|].
  destruct (ascii_dec c c); [exact IH | congruence].
Qed.

Lemma mentions_prefix x hay : String.prefix x hay = true -> mentions x hay = true.
Proof. intros H. destruct hay; simpl in *; now rewrite H. Qed.

Lemma mentions_append_r x s t :
  mentions x t = true -> mentions x (s ++ t)%string = true.
Proof.
  intros H. induction s as [|c s IH]; simpl; [exact H|].
  rewrite IH. apply orb_true_r.
Qed.

Lemma mentions_append_l x t : mentions x (x ++ t)%string = true.
Proof. apply mentions_prefix, prefix_append. Qed.

Lemma failed_names_error e what code :
  names_error e (failed e what code) code = true.
Proof.
  unfold names_error, failed. apply andb_true_intro. split.
  - do 2 apply mentions_append_r. apply mentions_append_l.
  - do 4 apply mentions_append_r. apply mentions_append_l.
Qed.

Lemma diagnostic_names_step e k :
  mentions (step_label k) (diagnostic e k) = true.
Proof.
  destruct k; try (apply mentions_append_l). reflexivity.
Qed.

(** * Startup failures *)

Lemma existsb_handlers (P : event -> bool) sigs :
  (forall s, P (Enter_handler s) = false) ->
  existsb P (map enter (map Handler sigs)) = false.
Proof.
  intros HP. induction sigs as [|s l IH]; simpl; [reflexivity|].
  now rewrite HP, IH.
Qed.

Lemma printed_handlers sigs :
  flat_map printed (map Handler sigs) = map caught sigs.
Proof. induction sigs as [|s l IH]; simpl; [reflexivity | now rewrite IH]. Qed.

Lemma first_failure_status e k :
  first_failure e = Some k -> k <> SinkOpen ->
  underlying_error e k <> HACKRF_SUCCESS.
Proof.
  unfold first_failure, neq.
  destruct (fopen_errno e); simpl; [intros [= <-]; congruence|].
  destruct (Z.eqb_spec (r_init e) HACKRF_SUCCESS); simpl;
    [|intros [= <-] _; assumption].
  destruct (Z.eqb_spec (r_open e) HACKRF_SUCCESS); simpl;
    [|intros [= <-] _; assumption].
  destruct (Z.eqb_spec (r_set_freq e) HACKRF_SUCCESS); simpl;
    [|intros [= <-] _; assumption].
  destruct (Z.eqb_spec (r_set_sample_rate e) HACKRF_SUCCESS); simpl;
    [|intros [= <-] _; assumption].
  destruct (Z.eqb_spec (r_start_rx e) HACKRF_SUCCESS); simpl;
    [discriminate|intros [= <-] _; assumption].
Qed.

(** C3, as stated, fails: when [hackrf_set_freq] is rejected, [main]
    returns with the sink still open and the device handle still held; the
    only calls made are the four startup calls. *)
Lemma abort_keeps_resources :
  first_failure frequency_rejected = Some FrequencySet
  /\ snd (run frequency_rejected) = Return EXIT_FAILURE
  /\ sink_released (fst (run frequency_rejected)) = false
  /\ device_released (fst (run frequency_rejected)) = false
  /\ trace (fst (run frequency_rejected))
     = [Call (Lfopen OUTPUT_FILE) 1; Call Lhackrf_init 0;
        Call Lhackrf_open_by_serial 0;
        Call (Lhackrf_set_freq RADIO_FREQ) (-1000)].
Proof. repeat split. Qed.

(** C3, amended. When a startup step fails, [main] returns the failure
    status at once and performs no teardown at all: none of stop-streaming,
    device close, subsystem shutdown and sink close is called, and what was
    acquired before the failing step (the open, still empty sink from the
    subsystem-init step on, the device handle from the frequency step on) is
    still held when [main] returns. *)
Theorem startup_abort_skips_teardown :
  forall (e : Env) (k : step),
    first_failure e = Some k ->
    let m := fst (run e) in
    snd (run e) = Return EXIT_FAILURE
    /\ existsb is_teardown (trace m) = false
    /\ fp m = match k with
              | SinkOpen => None
              | _ => Some {| f_data := []; f_open := true |}
              end
    /\ device m = match k with
                  | SinkOpen | SubsystemInit | DeviceOpen => None
                  | _ => Some Device
                  end.
Proof.
  intros e k Hk. cbv zeta. rewrite (run_aborts e k Hk). simpl fst. simpl snd.
  split; [reflexivity|].
  destruct k; try (repeat split; fail).
  unfold aborted, start_attempted. simpl.
  rewrite trace_arrive, fp_arrive_handlers, device_arrive, !existsb_app.
  rewrite existsb_handlers by reflexivity.
  repeat split.
Qed.

Lemma startup_abort_skips_teardown_witness :
  existsb is_teardown (trace (fst (run no_device))) = false
  /\ device (fst (run no_device)) = None.
Proof.
  destruct (startup_abort_skips_teardown no_device DeviceOpen)
    as (_ & Hcalls & _ & Hdev).
  - reflexivity.
  - split; [exact Hcalls | exact Hdev].
Defined.

(** C6, as stated, fails at the sink-open step: whatever made [fopen] fail,
    the program prints the one fixed line, which carries neither the error
    code nor anything else that depends on it; the runs for errno 13 and for
    errno 2 are the same. *)
Lemma sink_open_diagnostic_is_fixed :
  first_failure (sink_refused 13) = Some SinkOpen
  /\ underlying_error (sink_refused 13) SinkOpen = 13
  /\ stderr (fst (run (sink_refused 13))) = ["Error opening output file"]
  /\ mentions (dec 13) "Error opening output file" = false
  /\ run (sink_refused 13) = run (sink_refused 2).
Proof. repeat split. Qed.

(** C6, amended. If a startup step fails, [main] returns [EXIT_FAILURE],
    which is not 0; the last thing printed is the diagnostic of that step,
    which names the step; for the five libhackrf steps it also carries the
    description and the code of the error returned, while for the sink it is
    the fixed line ["Error opening output file"]; the receive callback was
    not invoked and [hackrf_start_rx] did not return success.  If no step
    fails and shutdown is interrupt-driven, [main] returns 0. *)
Theorem startup_outcomes :
  forall e : Env,
    (forall k : step,
        first_failure e = Some k ->
        let m := fst (run e) in
        snd (run e) = Return EXIT_FAILURE
        /\ EXIT_FAILURE <> 0
        /\ stderr m = map caught (early_signals e k) ++ [diagnostic e k]
        /\ mentions (step_label k) (diagnostic e k) = true
        /\ match k with
           | SinkOpen => diagnostic e k = "Error opening output file"
           | _ => names_error e (diagnostic e k) (underlying_error e k) = true
           end
        /\ existsb is_rx_callback (trace m) = false
        /\ reached_streaming (trace m) = false)
    /\ (first_failure e = None ->
        interrupt_driven e = true ->
        snd (run e) = Return 0).
Proof.
  intros e. split.
  - intros k Hk. cbv zeta.
    pose proof (first_failure_status e k Hk) as Hcode.
    rewrite (run_aborts e k Hk). simpl fst. simpl snd.
    split; [reflexivity|]. split; [discriminate|].
    split; [|split; [apply diagnostic_names_step|split]].
    + destruct k; try reflexivity.
      unfold aborted, start_attempted. simpl.
      now rewrite stderr_arrive, printed_handlers.
    + destruct k; try apply failed_names_error. reflexivity.
    + destruct k; try (split; reflexivity).
      unfold aborted, start_attempted, reached_streaming. simpl.
      rewrite trace_arrive, !existsb_app, !existsb_handlers by reflexivity.
      simpl. split; [reflexivity|].
      rewrite orb_false_r. apply Z.eqb_neq. apply Hcode. discriminate.
  - intros Hok Hint. unfold interrupt_driven in Hint.
    apply andb_prop in Hint as [Hne Hsig].
    destruct (liveness_loop_terminates (polls e) (streaming_started e))
      as [m' Hloop].
    + destruct (polls e); [discriminate Hne | discriminate].
    + rewrite do_exit_streaming_started. unfold signalled in *.
      now rewrite app_assoc, existsb_app in Hsig.
    + destruct (run_outcome e Hok) as [[_ Hrun] | [Hpend _]].
      * now rewrite Hrun.
      * unfold streamed in Hpend. rewrite Hloop in Hpend. discriminate Hpend.
Qed.

Lemma startup_outcomes_witness :
  stderr (fst (run no_device))
  = [("hackrf_open() failed: HackRF not found (-5)" ++ LF)%string]
  /\ snd (run interrupted_session) = Return 0.
Proof.
  split.
  - destruct (proj1 (startup_outcomes no_device) DeviceOpen)
      as (_ & _ & Herr & _).
    + reflexivity.
    + exact Herr.
  - apply (proj2 (startup_outcomes interrupted_session)); reflexivity.
Defined.

(** * Teardown *)

(** C7, as stated, fails: with subsystem shutdown and sink close both
    reporting failure, the run prints nothing about either; its standard
    error stream is that of the run in which all four steps succeed. *)
Lemma shutdown_failures_not_logged :
  first_failure silent_failures = None
  /\ snd (run silent_failures) = Return 0
  /\ In (Call Lhackrf_exit (-1000)) (trace (fst (run silent_failures)))
  /\ In (Call Lfclose (-1)) (trace (fst (run silent_failures)))
  /\ stderr (fst (run silent_failures))
     = [("Stop with Ctrl-C" ++ LF)%string; caught SIGINT]
  /\ stderr (fst (run silent_failures))
     = stderr (fst (run interrupted_session)).
Proof.
  repeat split; simpl; tauto.
Qed.

(** C7, amended. Whenever startup succeeded and the loop has ended, the
    four teardown calls (stop receive streaming, close the device, shut down
    the subsystem, close the sink) are the last four calls of the run, in
    that order, each made once and none made before, whatever the earlier
    ones returned; [main] then returns 0 with the sink closed.  A failure of
    stop or of close is logged; the values returned by the subsystem shutdown
    and by the sink close are not looked at and nothing is logged for
    them. *)
Theorem teardown_runs_to_completion :
  forall e : Env,
    first_failure e = None ->
    finished (snd (run e)) = true ->
    let m := fst (run e) in
    snd (run e) = Return 0
    /\ (exists before,
          trace m = before ++ [Call Lhackrf_stop_rx (r_stop_rx e);
                               Call Lhackrf_close (r_close e);
                               Call Lhackrf_exit (r_exit e);
                               Call Lfclose (r_fclose e)]
          /\ existsb is_teardown before = false)
    /\ stderr m
       = stderr (fst (run (with_teardown 0 0 0 0 e)))
         ++ warning e "hackrf_stop_rx()" (r_stop_rx e)
         ++ warning e "hackrf_close()" (r_close e)
    /\ sink_released m = true.
Proof.
  intros e Hok Hfin. cbv zeta.
  destruct (run_outcome e Hok) as [[Hval Hrun] | [_ Hrun]];
    [|rewrite Hrun in Hfin; discriminate Hfin].
  assert (Hquiet : run (with_teardown 0 0 0 0 e)
                   = (torn_down (with_teardown 0 0 0 0 e) (before_teardown e),
                      Return 0)).
  { destruct (run_outcome (with_teardown 0 0 0 0 e) Hok)
      as [[_ H] | [H _]]; [exact H|].
    change (snd (streamed e) = Pending) in H. congruence. }
  rewrite Hrun, Hquiet. simpl fst. simpl snd.
  destruct (before_teardown_holds e) as (_ & Hfp & tr & Htr & Hnone).
  split; [reflexivity|]. split; [|split].
  - exists (trace (before_teardown e)). split; [reflexivity|].
    rewrite Htr, existsb_app, Hnone. reflexivity.
  - unfold torn_down, warning. simpl. now rewrite app_nil_r.
  - unfold sink_released, torn_down. simpl.
    destruct (fp (before_teardown e)) as [f|]; [reflexivity|discriminate Hfp].
Qed.

Lemma teardown_runs_to_completion_witness :
  stderr (fst (run stop_fails))
  = [("Stop with Ctrl-C" ++ LF)%string; caught SIGINT;
     ("hackrf_stop_rx() failed: USB error (-1000)" ++ LF)%string]
  /\ sink_released (fst (run stop_fails)) = true.
Proof.
  destruct (teardown_runs_to_completion stop_fails)
    as (_ & _ & Herr & Hsink).
  - reflexivity.
  - reflexivity.
  - split; [exact Herr | exact Hsink].
Defined.

(** * Further properties of the callback and the handler *)

(** X1. With the sink pointer unset the receive callback skips the write:
    any number of invocations, whatever the flag and the descriptors, leaves
    the machine as it was and every status is the success code. *)
Theorem rx_callbacks_without_sink :
  forall (ts : list hackrf_transfer) (m : machine),
    fp m = None ->
    rx_callbacks ts m = (m, repeat HACKRF_SUCCESS (List.length ts)).
Proof.
  intros ts m Hfp. induction ts as [|t ts IH]; [reflexivity|].
  simpl. unfold rx_callback at 1. rewrite Hfp.
  destruct (do_exit m); now rewrite IH.
Qed.

Lemma rx_callbacks_without_sink_witness :
  rx_callbacks [ramp; burst] initial = (initial, [0; 0]).
Proof.
  apply (rx_callbacks_without_sink [ramp; burst] initial). reflexivity.
Defined.

(** X2. A buffer with no valid bytes changes nothing: in every state of
    the globals (flag set or clear, sink unset, open or closed) the callback
    returns the success code and leaves the machine exactly as it was. *)
Theorem rx_callback_empty_buffer :
  forall (t : hackrf_transfer) (m : machine),
    valid_length t = 0 ->
    rx_callback t m = (m, HACKRF_SUCCESS).
Proof.
  intros t m Hlen. unfold rx_callback. rewrite Hlen.
  destruct m as [flag [f|] d err tr]; simpl; destruct flag; try reflexivity.
  unfold fwrite. destruct f as [data opened]. simpl.
  destruct opened; [|reflexivity].
  unfold set_fp. simpl. now rewrite app_nil_r.
Qed.

Lemma rx_callback_empty_buffer_witness :
  rx_callback empty_transfer recording = (recording, 0).
Proof.
  apply (rx_callback_empty_buffer empty_transfer recording). reflexivity.
Defined.

(** X3. One invocation of the receive callback with a well-formed
    descriptor, in a state whose sink is unset or still open, leaves the exit
    flag, the device handle, the standard error stream and the trace of
    library calls untouched, keeps the sink pointer null or non-null and the
    stream open as it was, and only ever appends to the bytes already in the
    sink: it adds the valid bytes of the buffer or nothing. *)
Theorem rx_callback_only_appends :
  forall (t : hackrf_transfer) (m : machine),
    in_range t ->
    sink_usable m ->
    let m' := fst (rx_callback t m) in
    do_exit m' = do_exit m
    /\ device m' = device m
    /\ stderr m' = stderr m
    /\ trace m' = trace m
    /\ option_map f_open (fp m') = option_map f_open (fp m)
    /\ (sink m' = sink m \/ sink m' = sink m ++ valid_bytes t).
Proof.
  intros t m Ht Husable. cbv zeta.
  destruct (do_exit m) eqn:Hflag.
  - unfold rx_callback. rewrite Hflag. simpl.
    repeat (split; [auto|]). now left.
  - destruct (fp m) as [f|] eqn:Hfp.
    + rewrite (rx_callback_writes t m f Ht Hflag Hfp (Husable f Hfp)).
      unfold sink. simpl. rewrite Hfp, (Husable f Hfp). simpl.
      repeat (split; [auto|]). now right.
    + unfold rx_callback. rewrite Hflag, Hfp. simpl. rewrite Hfp.
      repeat (split; [auto|]). now left.
Qed.

Lemma rx_callback_only_appends_witness :
  sink (fst (rx_callback ramp recording)) = sink recording
  \/ sink (fst (rx_callback ramp recording))
     = sink recording ++ valid_bytes ramp.
Proof.
  destruct (rx_callback_only_appends ramp recording)
    as (_ & _ & _ & _ & _ & H).
  - unfold in_range, well_formed, INT_MAX. simpl. lia.
  - intros f Hf. injection Hf as <-. reflexivity.
  - exact H.
Defined.

Lemma fp_arrive_flagged evs :
  forall m, do_exit m = true -> fp (arrive evs m) = fp m.
Proof.
  unfold arrive. induction evs as [|a evs IH]; intros m Hflag; [reflexivity|].
  simpl. rewrite IH.
  - destruct a as [s|t]; simpl; [reflexivity|].
    unfold rx_callback. simpl. now rewrite Hflag.
  - rewrite do_exit_deliver, Hflag. reflexivity.
Qed.

Lemma arrive_records evs :
  forall (m : machine) (f : FILE),
    Forall in_range (before_signal evs) ->
    do_exit m = false ->
    fp m = Some f ->
    f_open f = true ->
    sink (arrive evs m)
    = sink m ++ List.concat (map valid_bytes (before_signal evs)).
Proof.
  induction evs as [|[s|t] evs IH]; intros m f Hts Hflag Hfp Hopen.
  - simpl. now rewrite app_nil_r.
  - simpl before_signal. simpl List.concat. rewrite app_nil_r.
    change (arrive (Handler s :: evs) m)
      with (arrive evs (deliver (Handler s) m)).
    unfold sink. now rewrite fp_arrive_flagged by reflexivity.
  - simpl before_signal in *. inversion Hts as [|? ? Ht Hts']; subst.
    change (arrive (Callback t :: evs) m)
      with (arrive evs (deliver (Callback t) m)).
    unfold deliver.
    rewrite (rx_callback_writes t (emit Enter_rx_callback m) f Ht Hflag Hfp
               Hopen).
    simpl fst. erewrite IH; [|exact Hts'|exact Hflag|reflexivity|reflexivity].
    unfold sink. simpl. rewrite Hfp. simpl.
    now rewrite app_assoc.
Qed.

(** X4. Handler and callback invocations arriving in any interleaving on an
    open sink with the flag clear: the sink receives the valid bytes of
    exactly the buffers that arrive before the first handler invocation, in
    arrival order; every buffer after it is dropped. *)
Theorem arrivals_recorded_until_signal :
  forall (evs : list async) (m : machine) (f : FILE),
    Forall in_range (before_signal evs) ->
    do_exit m = false ->
    fp m = Some f ->
    f_open f = true ->
    sink (arrive evs m)
    = sink m ++ List.concat (map valid_bytes (before_signal evs))
    /\ do_exit (arrive evs m) = signalled evs.
Proof.
  intros evs m f Hts Hflag Hfp Hopen. split.
  - now apply (arrive_records evs m f).
  - now rewrite do_exit_arrive, Hflag.
Qed.

Lemma arrivals_recorded_until_signal_witness :
  sink (arrive [Callback ramp; Handler SIGINT; Callback burst] recording)
  = [xff; x01; x02; x03]%byte.
Proof.
  destruct (arrivals_recorded_until_signal
              [Callback ramp; Handler SIGINT; Callback burst] recording
              {| f_data := [xff]%byte; f_open := true |}) as [H _].
  - apply Forall_cons; [apply ramp_in_range | apply Forall_nil].
  - reflexivity.
  - reflexivity.
  - reflexivity.
  - exact H.
Defined.

(** X5. The handler as a whole is not idempotent: each delivery prints its
    own line, so after the deliveries of [sigs] the standard error stream has
    grown by one ["Caught signal <n>"] line per signal, in delivery order,
    while the sink pointer, the device handle and the trace are as before. *)
Theorem deliveries_print_each :
  forall (sigs : list Z) (m : machine),
    stderr (deliveries sigs m) = stderr m ++ map caught sigs
    /\ fp (deliveries sigs m) = fp m
    /\ device (deliveries sigs m) = device m
    /\ trace (deliveries sigs m) = trace m.
Proof.
  unfold deliveries. induction sigs as [|s sigs IH]; intros m; simpl.
  - now rewrite app_nil_r.
  - destruct (IH (sigint_callback_handler s m)) as (He & Hf & Hd & Ht).
    rewrite He, Hf, Hd, Ht. simpl. rewrite <- app_assoc. repeat split.
Qed.

(** * Further properties of the loop and of complete runs *)

Lemma iterations_enter evs : iterations (map enter evs) = 0%nat.
Proof. induction evs as [|[s|t] evs IH]; simpl; auto. Qed.

Lemma calls_app tr tr' : calls (tr ++ tr') = calls tr ++ calls tr'.
Proof. unfold calls. apply filter_app. Qed.

Lemma calls_enter evs : calls (map enter evs) = [].
Proof. induction evs as [|[s|t] evs IH]; simpl; auto. Qed.

Lemma handler_ran_app tr tr' :
  handler_ran (tr ++ tr') = handler_ran tr || handler_ran tr'.
Proof. unfold handler_ran. apply existsb_app. Qed.

Lemma handler_ran_enter evs : handler_ran (map enter evs) = signalled evs.
Proof.
  induction evs as [|[s|t] evs IH]; simpl; [reflexivity|reflexivity|exact IH].
Qed.

(** X6. The loop never ends by itself: as long as the device answers
    [HACKRF_TRUE] at every poll and no signal is handled, it is still running
    when the scripted polls are used up, having slept once per poll, with the
    flag still clear. *)
Theorem liveness_loop_keeps_polling :
  forall (ps : list poll) (m : machine),
    do_exit m = false ->
    forallb uneventful ps = true ->
    snd (liveness_loop ps m) = Pending
    /\ iterations (trace (fst (liveness_loop ps m)))
       = (iterations (trace m) + List.length ps)%nat
    /\ do_exit (fst (liveness_loop ps m)) = false.
Proof.
  induction ps as [|p ps IH]; intros m Hflag Hall.
  - simpl. repeat split; [lia | exact Hflag].
  - simpl forallb in Hall. apply andb_prop in Hall as [Hp Hps].
    unfold uneventful in Hp. apply andb_prop in Hp as [Hs Hq].
    apply negb_true_iff in Hq.
    rewrite liveness_loop_unfold, Hs, Hflag. cbn [andb negb].
    set (m2 := arrive (arrivals p)
                 (emit (Call (Lsleep 1) 0) (emit (polled p) m))).
    assert (Hflag2 : do_exit m2 = false).
    { unfold m2. rewrite do_exit_arrive. simpl. now rewrite Hflag, Hq. }
    destruct (IH m2 Hflag2 Hps) as (Hres & Hit & Hfl).
    rewrite Hres, Hit, Hfl. repeat split.
    unfold m2. rewrite trace_arrive. simpl.
    rewrite !iterations_app, iterations_enter.
    change (iterations [polled p]) with 0%nat.
    change (iterations [Call (Lsleep 1) 0]) with 1%nat. lia.
Qed.

Lemma liveness_loop_keeps_polling_witness :
  snd (liveness_loop [idle; idle; idle] recording) = Pending
  /\ iterations (trace (fst (liveness_loop [idle; idle; idle] recording)))
     = 3%nat.
Proof.
  destruct (liveness_loop_keeps_polling [idle; idle; idle] recording)
    as (Hres & Hit & _).
  - reflexivity.
  - reflexivity.
  - split; [exact Hres | exact Hit].
Defined.

Lemma liveness_loop_ends_on_stop ps :
  existsb stopped ps = true ->
  forall m, exists m', liveness_loop ps m = (m', Val tt).
Proof.
  induction ps as [|p ps IH]; intros Hstop m; [discriminate Hstop|].
  rewrite liveness_loop_unfold.
  destruct ((streaming p =? HACKRF_TRUE) && negb (do_exit m)) eqn:G;
    [|eexists; reflexivity].
  apply IH. simpl in Hstop. unfold stopped at 1 in Hstop.
  apply andb_prop in G as [Gs _]. now rewrite Gs in Hstop.
Qed.

(** X7. A run in which startup succeeds and the device, at some scripted
    poll, reports that it no longer streams comes to an end without any
    signal: [main] runs the cleanup and returns 0, the same status as after
    an interrupt. *)
Theorem device_stop_ends_run :
  forall e : Env,
    first_failure e = None ->
    existsb stopped (polls e) = true ->
    snd (run e) = Return 0
    /\ sink_released (fst (run e)) = true.
Proof.
  intros e Hok Hstop.
  destruct (liveness_loop_ends_on_stop (polls e) Hstop (streaming_started e))
    as [m' Hloop].
  destruct (run_outcome e Hok) as [[_ Hrun] | [Hpend _]].
  - rewrite Hrun. split; [reflexivity|].
    destruct (before_teardown_holds e) as (_ & Hfp & _).
    unfold sink_released, torn_down. simpl.
    destruct (fp (before_teardown e)); [reflexivity|discriminate Hfp].
  - unfold streamed in Hpend. rewrite Hloop in Hpend. discriminate Hpend.
Qed.

Lemma device_stop_ends_run_witness :
  snd (run device_stops) = Return 0.
Proof.
  destruct (device_stop_ends_run device_stops) as [H _].
  - reflexivity.
  - reflexivity.
  - exact H.
Defined.

(** X8. The exit status tells startup failures from everything else and
    nothing more: [main] returns [EXIT_FAILURE] exactly when some startup
    step fails, and the only statuses it ever returns are 0 and
    [EXIT_FAILURE]; a failure during teardown does not change the status. *)
Theorem exit_status_characterised :
  forall e : Env,
    (snd (run e) = Return EXIT_FAILURE <-> first_failure e <> None)
    /\ (forall code, snd (run e) = Return code ->
                     code = 0 \/ code = EXIT_FAILURE).
Proof.
  intros e. destruct (first_failure e) as [k|] eqn:Hk.
  - rewrite (run_aborts e k Hk). simpl. split.
    + split; [discriminate | reflexivity].
    + intros code [= <-]. now right.
  - destruct (run_outcome e Hk) as [[_ Hrun] | [_ Hrun]]; rewrite Hrun; simpl.
    + split; [split; [discriminate | congruence]|].
      intros code [= <-]. now left.
    + split; [split; [discriminate | congruence]|].
      intros code H. discriminate H.
Qed.

Lemma flag_tracks_arrive evs m :
  do_exit m = handler_ran (trace m) ->
  do_exit (arrive evs m) = handler_ran (trace (arrive evs m)).
Proof.
  intros H.
  now rewrite do_exit_arrive, trace_arrive, handler_ran_app,
    handler_ran_enter, H.
Qed.

Lemma flag_tracks_call c r m :
  do_exit m = handler_ran (trace m) ->
  do_exit (emit (Call c r) m) = handler_ran (trace (emit (Call c r) m)).
Proof.
  intros H. simpl. rewrite handler_ran_app, H. simpl.
  now rewrite orb_false_r.
Qed.

Lemma flag_tracks_loop ps :
  forall m,
    do_exit m = handler_ran (trace m) ->
    do_exit (fst (liveness_loop ps m))
    = handler_ran (trace (fst (liveness_loop ps m))).
Proof.
  induction ps as [|p ps IH]; intros m H; [exact H|].
  rewrite liveness_loop_unfold.
  destruct ((streaming p =? HACKRF_TRUE) && negb (do_exit m)).
  - apply IH, flag_tracks_arrive, flag_tracks_call, flag_tracks_call, H.
  - apply flag_tracks_call, H.
Qed.

Lemma flag_tracks_start e :
  do_exit (streaming_started e) = handler_ran (trace (streaming_started e)).
Proof.
  unfold streaming_started.
  change (do_exit (arrive (pre_loop e) (start_attempted e HACKRF_SUCCESS))
          = handler_ran
              (trace (arrive (pre_loop e)
                        (start_attempted e HACKRF_SUCCESS)))).
  apply flag_tracks_arrive. unfold start_attempted.
  apply flag_tracks_call, flag_tracks_arrive. reflexivity.
Qed.

(** X9. [main] itself never writes the exit flag: in the state in which a
    run ends (aborted at startup, completed, or still polling when the script
    ends) the flag is set exactly when the signal handler was entered at some
    point of the run. *)
Theorem flag_set_iff_handler_ran :
  forall e : Env,
    do_exit (fst (run e)) = handler_ran (trace (fst (run e))).
Proof.
  intros e. destruct (first_failure e) as [k|] eqn:Hk.
  - rewrite (run_aborts e k Hk). simpl fst.
    destruct k; try reflexivity.
    unfold aborted.
    change (do_exit (start_attempted e (r_start_rx e))
            = handler_ran (trace (start_attempted e (r_start_rx e)))).
    unfold start_attempted.
    apply flag_tracks_call, flag_tracks_arrive. reflexivity.
  - pose proof (flag_tracks_loop (polls e) (streaming_started e)
                  (flag_tracks_start e)) as Hloop.
    destruct (run_outcome e Hk) as [[_ Hrun] | [_ Hrun]]; rewrite Hrun;
      simpl fst; [|exact Hloop].
    unfold torn_down. simpl.
    rewrite handler_ran_app.
    change (handler_ran (teardown_calls e)) with false.
    rewrite orb_false_r. unfold before_teardown.
    apply flag_tracks_arrive. exact Hloop.
Qed.

Lemma open_deliver a m :
  option_map f_open (fp (deliver a m)) = option_map f_open (fp m).
Proof.
  destruct a as [s|t]; [reflexivity|].
  unfold deliver, rx_callback.
  destruct m as [flag [[data opened]|] d err tr]; simpl; destruct flag;
    simpl; try reflexivity.
  unfold fwrite. simpl. now destruct opened.
Qed.

Lemma open_arrive evs :
  forall m, option_map f_open (fp (arrive evs m)) = option_map f_open (fp m).
Proof.
  unfold arrive. induction evs as [|a evs IH]; intros m; [reflexivity|].
  simpl. now rewrite IH, open_deliver.
Qed.

Lemma open_loop ps :
  forall m, option_map f_open (fp (fst (liveness_loop ps m)))
            = option_map f_open (fp m).
Proof.
  induction ps as [|p ps IH]; intros m; [reflexivity|].
  rewrite liveness_loop_unfold.
  destruct ((streaming p =? HACKRF_TRUE) && negb (do_exit m));
    [|reflexivity].
  now rewrite IH, open_arrive.
Qed.

(** X10. The two guards of the cleanup block, [device != NULL] and
    [fp != NULL], are true whenever the block is reached: in a run that
    completes after a successful startup and in which [fclose] returns 0,
    the block starts with the device handle set and the sink still open,
    runs in full from there, and the sink ends closed with exactly the bytes
    it held when the block started. *)
Theorem cleanup_guards_hold :
  forall e : Env,
    first_failure e = None ->
    finished (snd (run e)) = true ->
    r_fclose e = 0 ->
    exists (m : machine) (f : FILE),
      device m = Some Device
      /\ fp m = Some f
      /\ f_open f = true
      /\ teardown e m = (fst (run e), Val tt)
      /\ fp (fst (run e)) = Some (fclose f)
      /\ sink (fst (run e)) = sink m.
Proof.
  intros e Hok Hfin _.
  destruct (run_outcome e Hok) as [[_ Hrun] | [_ Hrun]];
    [|rewrite Hrun in Hfin; discriminate Hfin].
  destruct (before_teardown_holds e) as (Hdev & Hnull & _).
  assert (Hopen : option_map f_open (fp (before_teardown e)) = Some true).
  { unfold before_teardown, streamed.
    rewrite open_arrive, open_loop. unfold streaming_started. simpl fp.
    rewrite open_arrive. unfold start_attempted. simpl fp.
    now rewrite fp_arrive_handlers. }
  destruct (fp (before_teardown e)) as [f|] eqn:Hfp; [|discriminate Hopen].
  exists (before_teardown e), f. rewrite Hrun. simpl fst.
  injection Hopen as Hopen.
  repeat split; try assumption.
  - apply teardown_runs; [now rewrite Hdev | now rewrite Hfp].
  - unfold torn_down. simpl. now rewrite Hfp.
  - unfold sink, torn_down. simpl. now rewrite Hfp.
Qed.

Lemma cleanup_guards_hold_witness :
  exists (m : machine) (f : FILE),
    device m = Some Device /\ fp m = Some f /\ f_open f = true
    /\ teardown interrupted_session m
       = (fst (run interrupted_session), Val tt)
    /\ fp (fst (run interrupted_session)) = Some (fclose f)
    /\ sink (fst (run interrupted_session)) = sink m.
Proof.
  apply (cleanup_guards_hold interrupted_session); reflexivity.
Defined.

Lemma liveness_loop_calls ps :
  forall m m',
    liveness_loop ps m = (m', Val tt) ->
    exists (n : nat) (last : Z),
      calls (trace m')
      = calls (trace m) ++ List.concat (repeat turn n)
                        ++ [Call Lhackrf_is_streaming last]
      /\ (n < List.length ps)%nat
      /\ (last <> HACKRF_TRUE \/ do_exit m' = true).
Proof.
  induction ps as [|p ps IH]; intros m m' Hloop; [discriminate Hloop|].
  rewrite liveness_loop_unfold in Hloop.
  destruct ((streaming p =? HACKRF_TRUE) && negb (do_exit m)) eqn:G.
  - apply andb_prop in G as [Gs _]. apply Z.eqb_eq in Gs.
    destruct (IH _ _ Hloop) as (n & last & Hcalls & Hn & Hlast).
    exists (S n), last. split; [|split; [simpl; lia | exact Hlast]].
    rewrite Hcalls, trace_arrive. simpl trace.
    rewrite !calls_app, calls_enter, app_nil_r.
    unfold polled. rewrite Gs. simpl. now rewrite <- !app_assoc.
  - injection Hloop as <-. exists 0%nat, (streaming p).
    split; [|split; [simpl; lia|]].
    + simpl. now rewrite calls_app.
    + simpl do_exit. apply andb_false_iff in G as [G | G].
      * left. now apply Z.eqb_neq.
      * right. now apply negb_false_iff.
Qed.

Lemma calls_streaming_started e :
  calls (trace (streaming_started e)) = startup_calls.
Proof.
  unfold streaming_started. simpl trace. rewrite trace_arrive.
  unfold start_attempted. simpl trace. rewrite trace_arrive.
  now rewrite !calls_app, !calls_enter.
Qed.

(** X11. The library sees one fixed protocol in every run that completes
    after a successful startup: the twelve startup calls in program order,
    then some number of loop turns (a status query answered [HACKRF_TRUE]
    followed by [sleep(1)]), fewer than there were polls, then one last
    status query, at which the device no longer streamed or the flag was
    set, and then the four teardown calls. *)
Theorem completed_run_protocol :
  forall e : Env,
    first_failure e = None ->
    finished (snd (run e)) = true ->
    exists (n : nat) (last : Z),
      calls (trace (fst (run e)))
      = startup_calls
        ++ List.concat (repeat turn n)
        ++ [Call Lhackrf_is_streaming last]
        ++ [Call Lhackrf_stop_rx (r_stop_rx e);
            Call Lhackrf_close (r_close e);
            Call Lhackrf_exit (r_exit e);
            Call Lfclose (r_fclose e)]
      /\ (n < List.length (polls e))%nat
      /\ (last <> HACKRF_TRUE \/ do_exit (fst (run e)) = true).
Proof.
  intros e Hok Hfin.
  destruct (run_outcome e Hok) as [[Hval Hrun] | [_ Hrun]];
    [|rewrite Hrun in Hfin; discriminate Hfin].
  assert (Hloop : liveness_loop (polls e) (streaming_started e)
                  = (fst (streamed e), Val tt)).
  { unfold streamed in *.
    destruct (liveness_loop (polls e) (streaming_started e)) as [m' r].
    simpl in *. now subst r. }
  destruct (liveness_loop_calls _ _ _ Hloop) as (n & last & Hcalls & Hn & Hl).
  exists n, last. rewrite Hrun. simpl fst.
  split; [|split; [exact Hn|]].
  - unfold torn_down. simpl trace. unfold before_teardown.
    rewrite calls_app, trace_arrive, calls_app, calls_enter, app_nil_r.
    rewrite Hcalls, calls_streaming_started.
    now rewrite <- !app_assoc.
  - destruct Hl as [Hl | Hl]; [now left | right].
    unfold torn_down, before_teardown. simpl do_exit.
    rewrite do_exit_arrive, Hl. reflexivity.
Qed.

Lemma completed_run_protocol_witness :
  exists (n : nat) (last : Z),
    calls (trace (fst (run device_stops)))
    = startup_calls
      ++ List.concat (repeat turn n)
      ++ [Call Lhackrf_is_streaming last]
      ++ [Call Lhackrf_stop_rx 0; Call Lhackrf_close 0;
          Call Lhackrf_exit 0; Call Lfclose 0]
    /\ (n < 2)%nat
    /\ (last <> HACKRF_TRUE \/ do_exit (fst (run device_stops)) = true).
Proof.
  apply (completed_run_protocol device_stops); reflexivity.
Defined.

(** X12. A signal handled before streaming starts does not stop the
    startup: [hackrf_start_rx] is still called, the loop body never runs,
    every buffer that arrives is dropped, and the run ends with status 0 and
    an empty output file. *)
Theorem signal_before_start_records_nothing :
  forall (e : Env) (signum : Z) (more : list Z),
    first_failure e = None ->
    pre_start e = signum :: more ->
    finished (snd (run e)) = true ->
    snd (run e) = Return 0
    /\ reached_streaming (trace (fst (run e))) = true
    /\ iterations (trace (fst (run e))) = 0%nat
    /\ sink (fst (run e)) = [].
Proof.
  intros e signum more Hok Hpre Hfin.
  destruct (run_outcome e Hok) as [[Hval Hrun] | [_ Hrun]];
    [|rewrite Hrun in Hfin; discriminate Hfin].
  assert (Hattempt : do_exit (start_attempted e HACKRF_SUCCESS) = true).
  { unfold start_attempted. simpl do_exit.
    rewrite do_exit_arrive, Hpre. reflexivity. }
  assert (Hflag : do_exit (streaming_started e) = true).
  { rewrite do_exit_streaming_started, Hpre. reflexivity. }
  assert (Hfp : fp (streaming_started e)
                = Some {| f_data := []; f_open := true |}).
  { unfold streaming_started. simpl fp.
    rewrite (fp_arrive_flagged _ _ Hattempt).
    unfold start_attempted. simpl fp. now rewrite fp_arrive_handlers. }
  unfold streamed in Hval.
  destruct (polls e) as [|p ps] eqn:Hpolls; [discriminate Hval|].
  assert (Hbefore : before_teardown e
                    = arrive (drain e) (emit (polled p) (streaming_started e))).
  { unfold before_teardown, streamed.
    now rewrite Hpolls, liveness_loop_unfold, Hflag, andb_false_r. }
  rewrite Hrun. simpl fst. simpl snd.
  split; [reflexivity|].
  assert (Htrace : trace (torn_down e (before_teardown e))
                   = ((((trace handlers_installed
                          ++ map enter (map Handler (pre_start e)))
                         ++ [Call Lhackrf_start_rx HACKRF_SUCCESS])
                        ++ map enter (pre_loop e))
                       ++ [polled p])
                      ++ map enter (drain e) ++ teardown_calls e).
  { unfold torn_down. simpl trace. rewrite Hbefore.
    rewrite trace_arrive. simpl trace.
    unfold streaming_started. simpl trace. rewrite trace_arrive.
    unfold start_attempted. simpl trace. rewrite trace_arrive.
    now rewrite <- !app_assoc. }
  split; [|split].
  - rewrite Htrace. unfold reached_streaming. rewrite !existsb_app. simpl.
    now rewrite !orb_true_r.
  - rewrite Htrace, !iterations_app, !iterations_enter. reflexivity.
  - unfold sink, torn_down. cbn [fp]. rewrite Hbefore.
    rewrite fp_arrive_flagged by exact Hflag.
    change (fp (emit (polled p) (streaming_started e)))
      with (fp (streaming_started e)).
    now rewrite Hfp.
Qed.

Lemma signal_before_start_records_nothing_witness :
  snd (run early_signal) = Return 0
  /\ sink (fst (run early_signal)) = [].
Proof.
  destruct (signal_before_start_records_nothing early_signal SIGTERM [])
    as (Hret & _ & _ & Hsink).
  - reflexivity.
  - reflexivity.
  - reflexivity.
  - split; [exact Hret | exact Hsink].
Defined.

(** * The output of a complete run *)

Lemma arrive_app evs evs' m :
  arrive (evs ++ evs') m = arrive evs' (arrive evs m).
Proof. unfold arrive. apply fold_left_app. Qed.

Lemma same_globals_deliver a m1 m2 :
  same_globals m1 m2 -> same_globals (deliver a m1) (deliver a m2).
Proof.
  intros [Hflag Hfp]. destruct a as [s|t]; [split; [reflexivity|exact Hfp]|].
  unfold same_globals, deliver, rx_callback. simpl.
  rewrite Hflag, Hfp.
  destruct (do_exit m2) eqn:E2; simpl; [split; congruence|].
  destruct (fp m2) as [f|] eqn:F2; simpl; [|split; congruence].
  destruct (fwrite _ _ _ f). simpl. split; congruence.
Qed.

Lemma same_globals_arrive evs :
  forall m1 m2,
    same_globals m1 m2 -> same_globals (arrive evs m1) (arrive evs m2).
Proof.
  unfold arrive. induction evs as [|a evs IH]; intros m1 m2 H; [exact H|].
  simpl. apply IH, same_globals_deliver, H.
Qed.

Lemma same_globals_trans m1 m2 m3 :
  same_globals m1 m2 -> same_globals m2 m3 -> same_globals m1 m3.
Proof. intros [? ?] [? ?]. split; congruence. Qed.

(** When the loop ends after [n] turns, the flag and the sink are those
    left by the arrivals of the first [n] polls. *)
Lemma liveness_loop_globals ps :
  forall m m',
    liveness_loop ps m = (m', Val tt) ->
    exists n : nat,
      iterations (trace m') = (iterations (trace m) + n)%nat
      /\ same_globals m' (arrive (flat_map arrivals (firstn n ps)) m).
Proof.
  induction ps as [|p ps IH]; intros m m' Hloop; [discriminate Hloop|].
  rewrite liveness_loop_unfold in Hloop.
  destruct ((streaming p =? HACKRF_TRUE) && negb (do_exit m)).
  - destruct (IH _ _ Hloop) as (n & Hit & Hsame).
    exists (S n). split.
    + rewrite Hit, trace_arrive. simpl trace.
      rewrite !iterations_app, iterations_enter.
      change (iterations [polled p]) with 0%nat.
      change (iterations [Call (Lsleep 1) 0]) with 1%nat. lia.
    + eapply same_globals_trans; [exact Hsame|].
      simpl firstn. simpl flat_map. rewrite arrive_app.
      apply same_globals_arrive, same_globals_arrive. split; reflexivity.
  - injection Hloop as <-. exists 0%nat. split.
    + simpl. rewrite iterations_app.
      change (iterations [polled p]) with 0%nat. lia.
    + split; reflexivity.
Qed.

Lemma iterations_streaming_started e :
  iterations (trace (streaming_started e)) = 0%nat.
Proof.
  unfold streaming_started. simpl trace. rewrite trace_arrive.
  unfold start_attempted. simpl trace. rewrite trace_arrive.
  now rewrite !iterations_app, !iterations_enter.
Qed.

(** X13. The output file of a run that completes after a successful
    startup and in which [fclose] returns 0: with [n] the number of sleeps
    the run made, the closed sink holds exactly the valid bytes of the
    buffers that arrived (before the loop, during those [n] sleeps, and while
    stopping) ahead of the first handled signal, in arrival order, and
    nothing else. *)
Theorem completed_run_output :
  forall e : Env,
    first_failure e = None ->
    finished (snd (run e)) = true ->
    r_fclose e = 0 ->
    let n := iterations (trace (fst (run e))) in
    Forall in_range (before_signal (delivered e n)) ->
    sink (fst (run e))
    = List.concat (map valid_bytes (before_signal (delivered e n)))
    /\ sink_released (fst (run e)) = true.
Proof.
  intros e Hok Hfin _.
  destruct (run_outcome e Hok) as [[Hval Hrun] | [_ Hrun]];
    [|rewrite Hrun in Hfin; discriminate Hfin].
  assert (Hloop : liveness_loop (polls e) (streaming_started e)
                  = (fst (streamed e), Val tt)).
  { unfold streamed in *.
    destruct (liveness_loop (polls e) (streaming_started e)) as [m' r].
    simpl in *. now subst r. }
  destruct (liveness_loop_globals _ _ _ Hloop) as (k & Hit & Hsame).
  rewrite iterations_streaming_started in Hit. simpl in Hit.
  assert (Hn : iterations (trace (fst (run e))) = k).
  { rewrite Hrun. simpl fst. unfold torn_down. simpl trace.
    unfold before_teardown. rewrite trace_arrive.
    rewrite !iterations_app, iterations_enter, Hit.
    change (iterations (teardown_calls e)) with 0%nat. lia. }
  cbv zeta. rewrite Hn. intros Hts.
  assert (Hall : same_globals (before_teardown e)
                   (arrive (delivered e k) handlers_installed)).
  { unfold before_teardown, delivered. rewrite !arrive_app.
    apply same_globals_arrive.
    eapply same_globals_trans; [exact Hsame|].
    apply same_globals_arrive. unfold streaming_started.
    apply (same_globals_trans _
             (arrive (pre_loop e) (start_attempted e HACKRF_SUCCESS)));
      [split; reflexivity|].
    apply same_globals_arrive. split; reflexivity. }
  destruct Hall as [_ Hfp].
  pose proof (arrive_records (delivered e k) handlers_installed
                {| f_data := []; f_open := true |} Hts eq_refl eq_refl
                eq_refl) as Hrec.
  rewrite Hrun. simpl fst.
  unfold sink_released, sink, torn_down in *. simpl fp. rewrite Hfp.
  destruct (fp (arrive (delivered e k) handlers_installed)) as [f|];
    simpl in *; [split; [exact Hrec | reflexivity]|].
  destruct (before_teardown_holds e) as (_ & Hnull & _).
  rewrite Hfp in Hnull. discriminate Hnull.
Qed.

Lemma completed_run_output_witness :
  sink (fst (run interrupted_session))
  = [x01; x02; x03; x0a; x0b]%byte.
Proof.
  destruct (completed_run_output interrupted_session) as [H _].
  - reflexivity.
  - reflexivity.
  - reflexivity.
  - simpl. apply Forall_cons; [apply ramp_in_range|].
    apply Forall_cons; [apply burst_in_range | apply Forall_nil].
  - exact H.
Defined.
